(** * RSI signal engine of UnstableSOLBot ([strategies.py])

    A shallow embedding of [RSIConfig] and [RSIStrategy] and the properties
    of the signal engine that the specification states.

    Numbers.  Python's [float] is idealised as an exact rational ([Q]); the
    only not-a-number the code produces on rational inputs, the first entry
    of [Series.diff()], is kept as [None].  A division by a Python number
    that is zero raises [ZeroDivisionError], as it does in Python.  Python
    [int] fields are [Z].  Where a claim turns on rounding, the arithmetic
    is rounded to float64 ([round64]): in [_check_position_limits], whose
    rounded products are compared with the price, and in the float64
    companions [rsi_entry_binary64] and [trade_amount_binary64] of the
    oscillator entry and of the position size.

    Effects.  The exchange client, the clock and the Telegram request are
    collaborators: every call is recorded in a history of events, and what
    a collaborator answers (a value or an exception) is an arbitrary
    function of the history so far.  The methods live in a small
    state-and-exception monad, with [try]/[except] as a combinator. *)

From Stdlib Require Import String QArith Qround Qabs Qpower Lqa ZArith.
From Stdlib Require Import List Permutation Sorted Lia Bool.
Import ListNotations.

Open Scope Q_scope.

(* ================================================================== *)
(** ** Python values: exceptions and results *)

Inductive exn : Type :=
| InsufficientFunds   (* ccxt.InsufficientFunds *)
| NetworkError        (* ccxt.NetworkError *)
| ZeroDivisionError
| AttributeError
| KeyError
| IndexError
| ValueError
| OtherException.     (* any other subclass of Exception *)

Inductive Result (A : Type) : Type :=
| Ok (a : A)
| Raise (e : exn).

Arguments Ok {A} a.
Arguments Raise {A} e.

(** Strict and large comparison of two numbers, as booleans. *)
Definition Qltb (x y : Q) : bool := negb (Qle_bool y x).
Definition Qleb (x y : Q) : bool := Qle_bool x y.

(** [a / b] on Python numbers. *)
Definition py_div (a b : Q) : Result Q :=
  if Qeq_bool b 0 then Raise ZeroDivisionError else Ok (a / b).

(** *** Rounding to float64

    [round64 x] is the float64 nearest to [x] (ties to even), for [x] of
    the normal range: neither overflow nor subnormals are modelled. *)

(** The [e] with [2^e <= a < 2^(e+1)], for [a > 0]. *)
Definition floor_log2 (a : Q) : Z :=
  let e0 := (Z.log2 (Qnum a) - Z.log2 (Z.pos (Qden a)))%Z in
  if Qle_bool (Qpower 2 e0) a then e0 else (e0 - 1)%Z.

Definition round_half_even (q : Q) : Z :=
  let f := Qfloor q in
  match Qcompare (q - inject_Z f) (1 # 2) with
  | Lt => f
  | Gt => (f + 1)%Z
  | Eq => if Z.even f then f else (f + 1)%Z
  end.

Definition round64 (x : Q) : Q :=
  if Qeq_bool x 0 then 0
  else
    let a := Qabs x in
    let scale := Qpower 2 (52 - floor_log2 a) in
    let r := inject_Z (round_half_even (a * scale)) / scale in
    if Qle_bool 0 x then r else - r.

(* ================================================================== *)
(** ** Data model *)

(** [RSIConfig], with the defaults of the dataclass. *)
Record RSIConfig : Type := mkRSIConfig {
  rsi_period : Z;
  oversold : Q;
  overbought : Q;
  stop_loss : Q;
  take_profit : Q;
  risk_percentage : Q;
  ema_window : Z
}.

Definition default_config : RSIConfig :=
  {| rsi_period := 14;
     oversold := 30;
     overbought := 70;
     stop_loss := 2 # 100;
     take_profit := 5 # 100;
     risk_percentage := 1 # 10;
     ema_window := 14 |}.

(** One OHLCV row of the frame built by [fetch_data]. *)
Record Bar : Type := mkBar {
  timestamp : Z;
  open : Q;
  high : Q;
  low : Q;
  close : Q;
  volume : Q
}.

(** The [DataFrame] handed around by [run]: the six OHLCV columns, row by
    row, and the column ['rsi'], which exists only once
    [_calculate_rsi_wilders] has assigned it. *)
Record DataFrame : Type := mkDataFrame {
  rows : list Bar;
  rsi : option (list Q)
}.

Definition len (df : DataFrame) : Z := Z.of_nat (length (rows df)).

(** [df['close']] *)
Definition close_column (df : DataFrame) : list Q := map close (rows df).

(** [df['rsi'] = s]: the frame object itself gets (or replaces) the column. *)
Definition set_rsi (df : DataFrame) (s : list Q) : DataFrame :=
  {| rows := rows df; rsi := Some s |}.

(** [df['rsi']] *)
Definition get_rsi (df : DataFrame) : Result (list Q) :=
  match rsi df with
  | Some s => Ok s
  | None => Raise KeyError
  end.

(** [s.iloc[-1]] *)
Definition iloc_last (s : list Q) : Result Q :=
  match s with
  | [] => Raise IndexError
  | x :: r => Ok (last r x)
  end.

(** The three strings [generate_signal] returns. *)
Inductive Signal : Type := BUY | SELL | HOLD.

(** [self.position]: the dict written by a BUY. *)
Record Position : Type := mkPosition {
  entry_price : Q;
  amount : Q;
  opened_at : Q      (* key "timestamp" *)
}.

(* ================================================================== *)
(** ** The pandas operations the strategy calls *)

Module Pandas.

(** [Series.diff()]: the first entry is NaN ([None]), entry [i] is
    [s[i] - s[i-1]]. *)
Fixpoint diff_from (prev : Q) (s : list Q) : list (option Q) :=
  match s with
  | [] => []
  | x :: r => Some (x - prev) :: diff_from x r
  end.

Definition diff (s : list Q) : list (option Q) :=
  match s with
  | [] => []
  | x :: r => None :: diff_from x r
  end.

(** [s.where(cond(s), other)] for an elementwise comparison [cond]:
    an entry is kept where the comparison holds and replaced by [other]
    where it does not; a comparison with NaN is False. *)
Definition where_ (cond : Q -> bool) (other : Q) (s : list (option Q))
  : list Q :=
  map (fun d => match d with
                | Some v => if cond v then v else other
                | None => other
                end) s.

(** [s.ewm(alpha=alpha, adjust=False).mean()]: a running value [y],
    seeded with the first sample and updated sample by sample with
    [y := (1 - alpha) * y + alpha * x]. *)
Fixpoint ewm_from (alpha y : Q) (s : list Q) : list Q :=
  match s with
  | [] => []
  | x :: r => let y' := (1 - alpha) * y + alpha * x in
              y' :: ewm_from alpha y' r
  end.

Definition ewm_mean (alpha : Q) (s : list Q) : list Q :=
  match s with
  | [] => []
  | x :: r => x :: ewm_from alpha x r
  end.

(** [ewm] refuses a smoothing factor outside (0, 1]. *)
Definition check_alpha (alpha : Q) : Result Q :=
  if Qltb 0 alpha && Qleb alpha 1 then Ok alpha else Raise ValueError.

(** Elementwise binary operation on two series of one index. *)
Fixpoint zip_with (f : Q -> Q -> Q) (a b : list Q) : list Q :=
  match a, b with
  | x :: a', y :: b' => f x y :: zip_with f a' b'
  | _, _ => []
  end.

End Pandas.

(* ================================================================== *)
(** ** Oscillator and signal *)

Definition epsilon : Q := 1 # 10000000000.   (* 1e-10 *)

(** [delta.where(delta > 0, 0.0)] and [-delta.where(delta < 0, 0.0)] *)
Definition gain_of (closes : list Q) : list Q :=
  Pandas.where_ (fun d => Qltb 0 d) 0 (Pandas.diff closes).

Definition loss_of (closes : list Q) : list Q :=
  map Qopp (Pandas.where_ (fun d => Qltb d 0) 0 (Pandas.diff closes)).

Definition avg_gain_of (alpha : Q) (closes : list Q) : list Q :=
  Pandas.ewm_mean alpha (gain_of closes).

Definition avg_loss_of (alpha : Q) (closes : list Q) : list Q :=
  Pandas.ewm_mean alpha (loss_of closes).

(** One entry of [100 - (100 / (1 + rs))] with
    [rs = avg_gain / (avg_loss + 1e-10)]. *)
Definition rsi_entry (g l : Q) : Q :=
  let rs := g / (l + epsilon) in
  100 - 100 / (1 + rs).

(** The same two lines as float64 computes them, every operation rounded
    (and the literal [1e-10]). *)
Definition rsi_entry_binary64 (g l : Q) : Q :=
  let rs := round64 (g / round64 (l + round64 epsilon)) in
  round64 (100 - round64 (100 / round64 (1 + rs))).

Definition oscillator (alpha : Q) (closes : list Q) : list Q :=
  Pandas.zip_with rsi_entry (avg_gain_of alpha closes) (avg_loss_of alpha closes).

(** [1/self.config.ema_window], then the check [ewm] makes on it. *)
Definition smoothing_alpha (cfg : RSIConfig) : Result Q :=
  match py_div 1 (inject_Z (ema_window cfg)) with
  | Ok a => Pandas.check_alpha a
  | Raise e => Raise e
  end.

(** [_calculate_rsi_wilders]: returns the frame it was given, with the
    column ['rsi'] assigned on that same object. *)
Definition _calculate_rsi_wilders (cfg : RSIConfig) (df : DataFrame)
  : Result DataFrame :=
  match smoothing_alpha cfg with
  | Ok alpha => Ok (set_rsi df (oscillator alpha (close_column df)))
  | Raise e => Raise e
  end.

Definition classify (cfg : RSIConfig) (latest_rsi : Q) : Signal :=
  if Qltb latest_rsi (oversold cfg) then BUY
  else if Qltb (overbought cfg) latest_rsi then SELL
  else HOLD.

(** [generate_signal]: the result of the call, and the caller's frame as
    the call leaves it. *)
Definition generate_signal (cfg : RSIConfig) (df : DataFrame)
  : Result Signal * DataFrame :=
  if (len df <? rsi_period cfg)%Z then (Ok HOLD, df)
  else
    match _calculate_rsi_wilders cfg df with
    | Raise e => (Raise e, df)
    | Ok df' =>
        match get_rsi df' with
        | Raise e => (Raise e, df')
        | Ok s =>
            match iloc_last s with
            | Raise e => (Raise e, df')
            | Ok latest_rsi => (Ok (classify cfg latest_rsi), df')
            end
        end
    end.

(* ================================================================== *)
(** ** Collaborators, events and the strategy object *)

(** The texts handed to [send_telegram_message], by their contents. *)
Inductive Message : Type :=
| MsgBuy (price amount rsi_value : Q)
| MsgSell (price pl rsi_value : Q)
| MsgInsufficientFunds
| MsgTimeExit (price hold_hours : Q)
| MsgStopLoss (price : Q)
| MsgTakeProfit (price : Q).

(** The records written through [logging]. *)
Inductive LogRecord : Type :=
| LogDataFetchError (e : exn)
| LogBalanceCheckError (e : exn)
| LogBelowMinimum (amount : Q)
| LogInsufficientFunds (e : exn)
| LogNetworkError (e : exn)
| LogTradeExecutionError (e : exn)
| LogPositionCheckError (e : exn)
| LogTelegramError (e : exn)
| LogMainLoopError (e : exn).

(** What the strategy does to the outside: a call to a collaborator with
    what it answered, a log record, a notice handed to
    [send_telegram_message]. *)
Inductive Event : Type :=
| EvFetchOhlcv (r : Result (list Bar))
| EvFetchTicker (r : Result Q)          (* fetch_ticker(symbol)['last'] *)
| EvFetchBalance (r : Result Q)         (* fetch_balance(..)['USDT']['free'] *)
| EvMarket (r : Result Q)               (* market(symbol)['limits']['amount']['min'] *)
| EvBuyOrder (amount : Q) (r : Result unit)
| EvSellOrder (amount : Q) (r : Result unit)
| EvTime (t : Q)
| EvTelegram (m : Message)              (* send_telegram_message(m) is entered *)
| EvPost (m : Message) (r : Result unit) (* requests.post(..).raise_for_status() *)
| EvLog (l : LogRecord).

(** The exchange client and the clock.  Each answer may depend on
    everything that happened before the call (the history, newest event
    first). *)
Record Exchange : Type := mkExchange {
  fetch_ohlcv : list Event -> Result (list Bar);
  fetch_ticker : list Event -> Result Q;
  fetch_balance : list Event -> Result Q;
  market : list Event -> Result Q;
  create_market_buy_order : list Event -> Q -> Result unit;
  create_market_sell_order : list Event -> Q -> Result unit;
  time_time : list Event -> Q
}.

(** The Telegram side: the two credentials given to the constructor, and
    what the HTTP request does. *)
Record Telegram : Type := mkTelegram {
  telegram_bot_token : option string;
  telegram_chat_id : option string;
  requests_post : list Event -> Message -> Result unit
}.

(** Truth value of an [Optional[str]]. *)
Definition truthy (o : option string) : bool :=
  match o with
  | Some (String _ _) => true
  | Some EmptyString => false
  | None => false
  end.

(** [all([self.telegram_bot_token, self.telegram_chat_id])] *)
Definition credentials (tg : Telegram) : bool :=
  truthy (telegram_bot_token tg) && truthy (telegram_chat_id tg).

(** The mutable attributes of an [RSIStrategy], and the history of its
    calls to the outside. *)
Record Strategy : Type := mkStrategy {
  position : option Position;
  _current_rsi : option Q;        (* unset until [run] assigns it *)
  history : list Event
}.

Definition initial_strategy : Strategy :=
  {| position := None; _current_rsi := None; history := [] |}.

(** *** A state-and-exception monad for the methods *)

Definition M (A : Type) : Type := Strategy -> Result A * Strategy.

Definition ret {A} (a : A) : M A := fun s => (Ok a, s).

Definition raise {A} (e : exn) : M A := fun s => (Raise e, s).

Definition bind {A B} (m : M A) (k : A -> M B) : M B :=
  fun s => match m s with
           | (Ok a, s') => k a s'
           | (Raise e, s') => (Raise e, s')
           end.

(** [try: m except Exception as e: handler e]; what [m] did to the object
    before raising stays done. *)
Definition try_except {A} (m : M A) (handler : exn -> M A) : M A :=
  fun s => match m s with
           | (Ok a, s') => (Ok a, s')
           | (Raise e, s') => handler e s'
           end.

Definition lift {A} (r : Result A) : M A := fun s => (r, s).

Notation "x <- m ;; k" := (bind m (fun x => k))
  (at level 61, m at next level, right associativity).
Notation "m ;; k" := (bind m (fun _ => k))
  (at level 61, right associativity).

Definition record (e : Event) : M unit :=
  fun s => (Ok tt, {| position := position s;
                      _current_rsi := _current_rsi s;
                      history := e :: history s |}).

(** A call to a collaborator: ask it, record the call, return or raise
    what it answered. *)
Definition call {A} (ask : list Event -> Result A) (ev : Result A -> Event)
  : M A :=
  fun s => let r := ask (history s) in
           (r, {| position := position s;
                  _current_rsi := _current_rsi s;
                  history := ev r :: history s |}).

Definition get_position : M (option Position) := fun s => (Ok (position s), s).

Definition set_position (p : option Position) : M unit :=
  fun s => (Ok tt, {| position := p;
                      _current_rsi := _current_rsi s;
                      history := history s |}).

(** Reading [self._current_rsi]. *)
Definition get_current_rsi : M Q :=
  fun s => match _current_rsi s with
           | Some r => (Ok r, s)
           | None => (Raise AttributeError, s)
           end.

Definition set_current_rsi (r : Q) : M unit :=
  fun s => (Ok tt, {| position := position s;
                      _current_rsi := Some r;
                      history := history s |}).

Definition logging (l : LogRecord) : M unit := record (EvLog l).

(** [time.time()] *)
Definition now (ex : Exchange) : M Q :=
  fun s => let t := time_time ex (history s) in
           (Ok t, {| position := position s;
                     _current_rsi := _current_rsi s;
                     history := EvTime t :: history s |}).

(** [send_telegram_message]; its entry is recorded, whether or not a
    request follows. *)
Definition send_telegram_message (tg : Telegram) (m : Message) : M unit :=
  record (EvTelegram m) ;;
  if negb (credentials tg) then ret tt
  else
    try_except
      (call (fun h => requests_post tg h m) (EvPost m))
      (fun e => logging (LogTelegramError e)).

(* ================================================================== *)
(** ** The methods of [RSIStrategy] *)

Section Methods.

Variable ex : Exchange.
Variable tg : Telegram.
Variable cfg : RSIConfig.

(** [fetch_data]: [None] when the exchange raises. *)
Definition fetch_data : M (option DataFrame) :=
  try_except
    (ohlcv <- call (fetch_ohlcv ex) EvFetchOhlcv ;;
     ret (Some {| rows := ohlcv; rsi := None |}))
    (fun e => logging (LogDataFetchError e) ;; ret None).

(** [_get_trade_amount] *)
Definition _get_trade_amount (price : Q) : M (option Q) :=
  try_except
    (usdt_balance <- call (fetch_balance ex) EvFetchBalance ;;
     let risk_amount := usdt_balance * risk_percentage cfg in
     q <- lift (py_div risk_amount price) ;;
     ret (Some q))
    (fun e => logging (LogBalanceCheckError e) ;; ret None).

(** The three [except] clauses of [execute_trade]. *)
Definition trade_handler (e : exn) : M unit :=
  match e with
  | InsufficientFunds =>
      logging (LogInsufficientFunds e) ;;
      send_telegram_message tg MsgInsufficientFunds
  | NetworkError => logging (LogNetworkError e)
  | _ => logging (LogTradeExecutionError e)
  end.

(** The BUY branch, entered when [signal == "BUY" and not self.position]. *)
Definition buy_branch (price : Q) : M unit :=
  sized <- _get_trade_amount price ;;
  match sized with
  | None => ret tt                       (* [not amount] *)
  | Some amount =>
      if Qeq_bool amount 0 || Qleb amount 0 then ret tt
      else
        minimum <- call (market ex) EvMarket ;;
        if Qltb amount minimum then logging (LogBelowMinimum amount)
        else
          call (fun h => create_market_buy_order ex h amount)
               (EvBuyOrder amount) ;;
          t <- now ex ;;
          set_position (Some {| entry_price := price;
                                amount := amount;
                                opened_at := t |}) ;;
          r <- get_current_rsi ;;
          send_telegram_message tg (MsgBuy price amount r)
  end.

(** The SELL branch, entered when [signal == "SELL" and self.position]. *)
Definition sell_branch (price : Q) (p : Position) : M unit :=
  call (fun h => create_market_sell_order ex h (amount p))
       (EvSellOrder (amount p)) ;;
  ratio <- lift (py_div price (entry_price p)) ;;
  let pl := (ratio - 1) * 100 in
  r <- get_current_rsi ;;
  send_telegram_message tg (MsgSell price pl r) ;;
  set_position None.

(** [execute_trade] *)
Definition execute_trade (signal : Signal) : M unit :=
  try_except
    (price <- call (fetch_ticker ex) EvFetchTicker ;;
     pos <- get_position ;;
     match signal, pos with
     | BUY, None => buy_branch price
     | SELL, Some p => sell_branch price p
     | _, _ => ret tt
     end)
    trade_handler.

(** The arithmetic of [_check_position_limits], rounded as float64 rounds
    it, since its results are compared with the price and the time limit:
    [time.time() - timestamp], [elapsed/3600],
    [entry * (1 - stop_loss)] and [entry * (1 + take_profit)]. *)
Definition elapsed_since (t opened : Q) : Q := round64 (t - opened).

Definition hold_hours (elapsed : Q) : Q := round64 (elapsed / 3600).

Definition stop_price (entry : Q) : Q :=
  round64 (entry * round64 (1 - stop_loss cfg)).

Definition target_price (entry : Q) : Q :=
  round64 (entry * round64 (1 + take_profit cfg)).

(** [_check_position_limits] *)
Definition _check_position_limits : M unit :=
  pos <- get_position ;;
  match pos with
  | None => ret tt
  | Some p =>
      try_except
        (price <- call (fetch_ticker ex) EvFetchTicker ;;
         let entry := entry_price p in
         t <- now ex ;;
         let elapsed := elapsed_since t (opened_at p) in
         if Qltb 14400 elapsed then
           execute_trade SELL ;;
           send_telegram_message tg (MsgTimeExit price (hold_hours elapsed))
         else if Qleb price (stop_price entry) then
           execute_trade SELL ;;
           send_telegram_message tg (MsgStopLoss price)
         else if Qleb (target_price entry) price then
           execute_trade SELL ;;
           send_telegram_message tg (MsgTakeProfit price)
         else ret tt)
        (fun e => logging (LogPositionCheckError e))
  end.

(** One turn of the loop of [run], without the sleep. *)
Definition run_cycle : M unit :=
  try_except
    (fetched <- fetch_data ;;
     match fetched with
     | None => ret tt
     | Some df =>
         if (len df =? 0)%Z then ret tt        (* [df.empty] *)
         else
           (* [generate_signal(df)] works on the frame object [df];
              the next line reads the column it left there *)
           let (signal, df') := generate_signal cfg df in
           sig <- lift signal ;;
           column <- lift (get_rsi df') ;;
           latest <- lift (iloc_last column) ;;
           set_current_rsi latest ;;
           execute_trade sig ;;
           _check_position_limits
     end)
    (fun e => logging (LogMainLoopError e)).

End Methods.

(* ================================================================== *)
(** ** The pause at the end of a turn of [run] *)

(** [a % b] on Python floats: zero divisor raises, the remainder has the
    sign of the divisor. *)
Definition py_mod (a b : Q) : Result Q :=
  if Qeq_bool b 0 then Raise ZeroDivisionError
  else Ok (a - b * inject_Z (Qfloor (a / b))).

(** [max(a, b)] *)
Definition py_max (a b : Q) : Q := if Qltb a b then b else a.

(** The argument of [time.sleep] at the end of a turn that took [elapsed]
    seconds: [max(interval - (elapsed % interval), 10)]. *)
Definition sleep_time (interval elapsed : Q) : Result Q :=
  match py_mod elapsed interval with
  | Ok r => Ok (py_max (interval - r) 10)
  | Raise e => Raise e
  end.

(* ================================================================== *)
(** ** The terminal front end ([menux.py]) *)

Section TerminalUI.

Variable ex : Exchange.
Variable tg : Telegram.
Variable cfg : RSIConfig.

(** One turn of the loop of [TerminalUI._handle_trading_display], as far
    as the strategy object is concerned (the drawing and the key read are
    left out).  Nothing here catches an [Exception]. *)
Definition ui_trading_step : M unit :=
  fetched <- fetch_data ex ;;
  match fetched with
  | None => ret tt
  | Some df =>
      if (len df =? 0)%Z then ret tt
      else
        let (signal, df') := generate_signal cfg df in
        sig <- lift signal ;;
        column <- lift (get_rsi df') ;;
        _ <- lift (iloc_last column) ;;
        execute_trade ex tg cfg sig
  end.

End TerminalUI.

Module Menu.

Definition KEY_UP : Z := 259.
Definition KEY_DOWN : Z := 258.

(** [self.options] *)
Definition options : list string :=
  ["Check USDT Balance"%string; "Start Trading"%string; "Exit"%string].

(** [l[i]] on a Python list: a negative index counts from the end. *)
Definition py_index (l : list string) (i : Z) : Result string :=
  let n := Z.of_nat (length l) in
  if ((0 <=? i) && (i <? n))%Z then Ok (nth (Z.to_nat i) l EmptyString)
  else if ((- n <=? i) && (i <? 0))%Z
       then Ok (nth (Z.to_nat (n + i)) l EmptyString)
       else Raise IndexError.

(** [TerminalUI._handle_input] on the key just read: what it returns, and
    [self.current_option] afterwards. *)
Definition _handle_input (key current_option : Z)
  : Result (option string) * Z :=
  if ((key =? KEY_UP) && (0 <? current_option))%Z
  then (Ok None, (current_option - 1)%Z)
  else if ((key =? KEY_DOWN)
           && (current_option <? Z.of_nat (length options) - 1))%Z
  then (Ok None, (current_option + 1)%Z)
  else if ((key =? 10) || (key =? 13))%Z
  then (match py_index options current_option with
        | Ok o => Ok (Some o)
        | Raise e => Raise e
        end, current_option)
  else (Ok None, current_option).

(** [self.current_option] after a run of keys, starting from [c]. *)
Fixpoint after_keys (keys : list Z) (c : Z) : Z :=
  match keys with
  | [] => c
  | key :: rest => after_keys rest (snd (_handle_input key c))
  end.

End Menu.

(* ================================================================== *)
(** ** The pool watcher ([ILove.py]) *)

Module ILove.

(** One entry of ["tokenTransfers"], with the two keys the code reads
    ([token.get(..)] is [None] for a missing key). *)
Record TokenTransfer : Type := mkTokenTransfer {
  mint : option string;
  fromTokenAccount : option string
}.

Definition WRAPPED_SOL : string :=
  "So11111111111111111111111111111111111111112"%string.

(** [mint and mint != WRAPPED_SOL and token.get("fromTokenAccount")] *)
Definition is_new_token (token : TokenTransfer) : bool :=
  match mint token with
  | Some m =>
      truthy (Some m) && negb (String.eqb m WRAPPED_SOL)
      && truthy (fromTokenAccount token)
  | None => false
  end.

(** The [for] loop of [extract_token_address]. *)
Fixpoint first_new_mint (token_transfers : list TokenTransfer)
  : option string :=
  match token_transfers with
  | [] => None
  | token :: rest =>
      if is_new_token token then mint token else first_new_mint rest
  end.

(** [extract_token_address], given what the transaction holds under
    ["tokenTransfers"] ([None] when the key is missing). *)
Definition extract_token_address (tokenTransfers : option (list TokenTransfer))
  : option string :=
  first_new_mint (match tokenTransfers with
                  | Some token_transfers => token_transfers
                  | None => []
                  end).

(** What [perform_rugcheck] reads of the result of [rugcheck]; of a top
    holder only ['amount'] is read. *)
Record RugCheck : Type := mkRugCheck {
  score : Q;
  topHolders : list Q;
  totalMarketLiquidity : Q;
  creator : option string
}.

(** What [perform_rugcheck] writes into its message. *)
Record Report : Type := mkReport {
  risk_score : Q;
  top_holder_percentages : list Q;
  total_percentage : Q;
  liquidity : Q;
  creator_shown : string
}.

(** [sorted(.., key=amount, reverse=True)]: stable, largest first. *)
Fixpoint insert_desc (x : Q) (l : list Q) : list Q :=
  match l with
  | [] => [x]
  | y :: r => if Qleb y x then x :: y :: r else y :: insert_desc x r
  end.

Definition sorted_desc (l : list Q) : list Q := fold_right insert_desc [] l.

(** [sum(..)] *)
Definition py_sum (l : list Q) : Q := fold_left Qplus l 0.

(** The loop over the top holders, with the list and the running total
    built so far. *)
Fixpoint percentage_loop (total_amount : Q) (top_holders : list Q)
    (percentages : list Q) (total : Q) : Result (list Q * Q) :=
  match top_holders with
  | [] => Ok (percentages, total)
  | holder :: rest =>
      match py_div holder total_amount with
      | Raise e => Raise e
      | Ok q =>
          let percentage := q * 100 in
          percentage_loop total_amount rest (percentages ++ [percentage])
                          (total + percentage)
      end
  end.

(** [perform_rugcheck], from the result of [rugcheck(token_mint)] on. *)
Definition perform_rugcheck (rc : RugCheck) : Result Report :=
  let total_amount := py_sum (topHolders rc) in
  let top_holders := firstn 10 (sorted_desc (topHolders rc)) in
  match percentage_loop total_amount top_holders [] 0 with
  | Raise e => Raise e
  | Ok (percentages, total) =>
      Ok {| risk_score := score rc;
            top_holder_percentages := percentages;
            total_percentage := total;
            liquidity := totalMarketLiquidity rc;
            creator_shown := match creator rc with
                             | Some (String c r) => String c r
                             | _ => "Unknown"%string
                             end |}
  end.

End ILove.

(* ================================================================== *)
(** ** Vocabulary of the properties *)

(** The invariants the specification puts on a configuration, and the
    smoothing window [ewm] accepts. *)
Definition config_valid (cfg : RSIConfig) : Prop :=
  (2 <= rsi_period cfg)%Z /\
  0 < oversold cfg /\ oversold cfg < overbought cfg /\ overbought cfg < 100 /\
  (1 <= ema_window cfg)%Z.

(** A window is degenerate when every consecutive close delta is zero. *)
Definition nondegenerate (closes : list Q) : bool :=
  existsb (fun d => match d with
                    | Some v => negb (Qeq_bool v 0)
                    | None => false
                    end) (Pandas.diff closes).

(** A frame as [fetch_data] builds it from a list of closes. *)
Definition frame_of_closes (closes : list Q) : DataFrame :=
  {| rows := map (fun c => mkBar 0 c c c c 1) closes; rsi := None |}.

(** Filled orders: a filled buy opens a position at the venue, a filled
    sell closes one. *)
Definition order_delta (e : Event) : Z :=
  match e with
  | EvBuyOrder _ (Ok _) => 1
  | EvSellOrder _ (Ok _) => -1
  | _ => 0
  end.

(** Positions open at the venue after a history: filled buys less filled
    sells. *)
Fixpoint net_open (h : list Event) : Z :=
  match h with
  | [] => 0
  | e :: r => order_delta e + net_open r
  end.

Definition is_order (e : Event) : bool :=
  match e with
  | EvBuyOrder _ _ | EvSellOrder _ _ => true
  | _ => false
  end.

Definition is_sell_order (e : Event) : bool :=
  match e with
  | EvSellOrder _ _ => true
  | _ => false
  end.

(** The exit notices among some events: the three texts
    [_check_position_limits] sends. *)
Definition is_exit_notice (e : Event) : bool :=
  match e with
  | EvTelegram (MsgTimeExit _ _)
  | EvTelegram (MsgStopLoss _)
  | EvTelegram (MsgTakeProfit _) => true
  | _ => false
  end.

Definition exit_notices (evs : list Event) : list Event :=
  filter is_exit_notice evs.

(** The states the strategy object can be in: it starts flat with an empty
    history, and its methods are called in any order, with any signal,
    against the given exchange. *)
Inductive reachable (ex : Exchange) (tg : Telegram) (cfg : RSIConfig)
  : Strategy -> Prop :=
| reach_init : reachable ex tg cfg initial_strategy
| reach_execute_trade s signal :
    reachable ex tg cfg s -> reachable ex tg cfg (snd (execute_trade ex tg cfg signal s))
| reach_check_position_limits s :
    reachable ex tg cfg s -> reachable ex tg cfg (snd (_check_position_limits ex tg cfg s))
| reach_run_cycle s :
    reachable ex tg cfg s -> reachable ex tg cfg (snd (run_cycle ex tg cfg s)).

(** The strategy object right after a call to [fetch_ticker]. *)
Definition after_ticker (ex : Exchange) (s : Strategy) : Strategy :=
  snd (call (fetch_ticker ex) EvFetchTicker s).

(** An exchange that always answers the same. *)
Definition constant_exchange (price balance minimum clock : Q)
    (buy sell : Result unit) : Exchange :=
  {| fetch_ohlcv := fun _ => Ok [];
     fetch_ticker := fun _ => Ok price;
     fetch_balance := fun _ => Ok balance;
     market := fun _ => Ok minimum;
     create_market_buy_order := fun _ _ => buy;
     create_market_sell_order := fun _ _ => sell;
     time_time := fun _ => clock |}.

(** A strategy without Telegram credentials. *)
Definition silent : Telegram :=
  {| telegram_bot_token := None;
     telegram_chat_id := None;
     requests_post := fun _ _ => Ok tt |}.

(** A strategy whose Telegram requests all fail. *)
Definition unreachable_telegram : Telegram :=
  {| telegram_bot_token := Some "token"%string;
     telegram_chat_id := Some "chat"%string;
     requests_post := fun _ _ => Raise OtherException |}.

(** A strategy object holding a position and nothing else. *)
Definition holding (p : Position) : Strategy :=
  {| position := Some p; _current_rsi := Some 50; history := [] |}.

(** The invariant behind "at most one position": at most one position is
    open at the venue, and none while the strategy holds none. *)
Definition one_position (s : Strategy) : Prop :=
  (net_open (history s) <= 1)%Z /\
  (position s = None -> (net_open (history s) <= 0)%Z).

(** A method keeps a property of the strategy object. *)
Definition keeps (I : Strategy -> Prop) {A} (m : M A) : Prop :=
  forall s, I s -> I (snd (m s)).


(** The states reached when the strategy is driven by [run] alone. *)
Inductive reachable_by_run (ex : Exchange) (tg : Telegram) (cfg : RSIConfig)
  : Strategy -> Prop :=
| run_init : reachable_by_run ex tg cfg initial_strategy
| run_turn s :
    reachable_by_run ex tg cfg s ->
    reachable_by_run ex tg cfg (snd (run_cycle ex tg cfg s)).

(** The states reached when the strategy is driven by the terminal front
    end alone. *)
Inductive reachable_by_ui (ex : Exchange) (tg : Telegram) (cfg : RSIConfig)
  : Strategy -> Prop :=
| ui_init : reachable_by_ui ex tg cfg initial_strategy
| ui_turn s :
    reachable_by_ui ex tg cfg s ->
    reachable_by_ui ex tg cfg (snd (ui_trading_step ex tg cfg s)).

(** The record and the venue agree: a position is held exactly when one
    is open at the venue. *)
Definition in_step (s : Strategy) : Prop :=
  match position s with
  | None => net_open (history s) = 0%Z
  | Some p => net_open (history s) = 1%Z /\ ~ entry_price p == 0
  end.

(** A held record is one a buy could have written. *)
Definition sound_record (s : Strategy) : Prop :=
  forall p, position s = Some p -> 0 < amount p /\ ~ entry_price p == 0.

(** No delta of the window is positive / negative. *)
Definition never_rises (closes : list Q) : Prop :=
  Forall (fun d => match d with Some v => v <= 0 | None => True end)
         (Pandas.diff closes).


(** The frame with every close moved by [c]. *)
Definition shift_closes (c : Q) (df : DataFrame) : DataFrame :=
  {| rows := map (fun b => {| timestamp := timestamp b;
                               open := open b;
                               high := high b;
                               low := low b;
                               close := close b + c;
                               volume := volume b |}) (rows df);
     rsi := rsi df |}.

(** An exchange that hands out a given list of bars. *)
Definition exchange_with_bars (bars : list Bar) : Exchange :=
  {| fetch_ohlcv := fun _ => Ok bars;
     fetch_ticker := fun _ => Ok 2;
     fetch_balance := fun _ => Ok 100;
     market := fun _ => Ok 1;
     create_market_buy_order := fun _ _ => Ok tt;
     create_market_sell_order := fun _ _ => Ok tt;
     time_time := fun _ => 0 |}.

(** [in_step], inside a turn of [run], once [_current_rsi] is assigned. *)
Definition in_step_rsi (s : Strategy) : Prop :=
  in_step s /\ _current_rsi s <> None.

(** A held record that no notice can be formatted for. *)
Definition ui_stuck (p : Position) (s : Strategy) : Prop :=
  position s = Some p /\ _current_rsi s = None.

(** Two deltas that are the same number, or both NaN. *)
Definition same_delta (a b : option Q) : Prop :=
  match a, b with
  | Some x, Some y => x == y
  | None, None => True
  | _, _ => False
  end.

(** Sum of a list, and a holder's share of a total, in percent. *)
Definition Qsum (l : list Q) : Q := fold_right Qplus 0 l.

Definition share (total_amount holder : Q) : Q := holder / total_amount * 100.

(** Largest first. *)
Definition descending : list Q -> Prop := StronglySorted (fun a b => b <= a).

(** Fifteen closes going down, and fifteen going up. *)
Definition falling_closes : list Q :=
  [15; 14; 13; 12; 11; 10; 9; 8; 7; 6; 5; 4; 3; 2; 1].


(** The history once [_check_position_limits] has read the ticker and the
    clock. *)
Definition checked_history (ex : Exchange) (s : Strategy) (price : Q)
  : list Event :=
  EvTime (time_time ex (EvFetchTicker (Ok price) :: history s))
  :: EvFetchTicker (Ok price) :: history s.

(** An exit of [_check_position_limits] was taken, from the history [h2],
    on the held record [p], leaving the events [evs] and the strategy
    [s']: its notice is the one exit notice; [execute_trade("SELL")] was
    run, so that, its own ticker fetch succeeding, exactly one order was
    placed, a sell of the held amount, which clears the record when it is
    filled (and the notice of the sell can be formatted) and leaves it
    when it is rejected; its ticker fetch failing, nothing was sold. *)
Definition exit_taken (ex : Exchange) (s s' : Strategy) (p : Position)
    (h2 evs : list Event) (notice : Message) : Prop :=
  exit_notices evs = [EvTelegram notice] /\
  (forall price2, fetch_ticker ex h2 = Ok price2 ->
     let answer := create_market_sell_order
                     ex (EvFetchTicker (Ok price2) :: h2) (amount p) in
     filter is_order evs = [EvSellOrder (amount p) answer] /\
     (answer = Ok tt -> ~ entry_price p == 0 -> _current_rsi s <> None ->
      position s' = None) /\
     (forall e, answer = Raise e -> position s' = Some p)) /\
  (forall e, fetch_ticker ex h2 = Raise e ->
     filter is_order evs = [] /\ position s' = Some p).


(** The arithmetic of [_get_trade_amount] as float64 computes it:
    [risk_amount = usdt_balance * risk_percentage], then
    [risk_amount / price]. *)
Definition risk_amount_binary64 (balance risk : Q) : Q :=
  round64 (balance * risk).

Definition trade_amount_binary64 (balance risk price : Q) : Q :=
  round64 (risk_amount_binary64 balance risk / price).

(* ================================================================== *)
(** * Properties *)

(** ** Rounding to float64 *)

(** Powers of two. *)
Lemma binade_pos (z : Z) : 0 < Qpower 2 z.
Proof. apply Qpower_0_lt. reflexivity. Qed.

Lemma quotient_bound (n d N D : Q) :
  0 < D -> 0 < N -> n < N -> D <= d -> n < N / D * d.
Proof.
  intros HD HN H1 H2.
  apply Qlt_le_trans with (1 := H1).
  apply Qle_trans with (N / D * D).
  - apply Qle_lteq. right. field. intro K. rewrite K in HD. discriminate HD.
  - assert (0 <= N / D) by (apply Qlt_le_weak, Qlt_shift_div_l; [exact HD | lra]).
    rewrite !(Qmult_comm (N / D)). apply Qmult_le_compat_r; assumption.
Qed.

Lemma quotient_bound' (n d N D : Q) :
  0 < D -> 0 < N -> N <= n -> d < D -> N / D * d < n.
Proof.
  intros HD HN H1 H2.
  apply Qlt_le_trans with (2 := H1).
  apply Qlt_le_trans with (N / D * D).
  - assert (0 < N / D) by (apply Qlt_shift_div_l; [exact HD | lra]).
    rewrite !(Qmult_comm (N / D)). apply Qmult_lt_compat_r; assumption.
  - apply Qle_lteq. right. field. intro K. rewrite K in HD. discriminate HD.
Qed.

(** [floor_log2 a] is the exponent of the binade of [a]. *)
Lemma floor_log2_spec (a : Q) :
  0 < a ->
  Qpower 2 (floor_log2 a) <= a /\ a < Qpower 2 (floor_log2 a + 1).
Proof.
  intros Ha. unfold floor_log2.
  destruct a as [n d]. cbn [Qnum Qden].
  assert (Hn : (0 < n)%Z).
  { unfold Qlt in Ha. cbn in Ha. lia. }
  set (ln := Z.log2 n). set (ld := Z.log2 (Z.pos d)).
  destruct (Z.log2_spec n Hn) as [N1 N2]. fold ln in N1, N2.
  destruct (Z.log2_spec (Z.pos d) eq_refl) as [D1 D2]. fold ld in D1, D2.
  assert (Ln : (0 <= ln)%Z) by apply Z.log2_nonneg.
  assert (Ld : (0 <= ld)%Z) by apply Z.log2_nonneg.
  assert (QN1 : Qpower 2 ln <= inject_Z n).
  { change 2 with (inject_Z 2). rewrite <- Zpower_Qpower by exact Ln.
    rewrite <- Zle_Qle. exact N1. }
  assert (QN2 : inject_Z n < Qpower 2 (ln + 1)).
  { change 2 with (inject_Z 2). rewrite <- Zpower_Qpower by lia.
    rewrite <- Zlt_Qlt. replace (ln + 1)%Z with (Z.succ ln) by lia. exact N2. }
  assert (QD1 : Qpower 2 ld <= inject_Z (Z.pos d)).
  { change 2 with (inject_Z 2). rewrite <- Zpower_Qpower by exact Ld.
    rewrite <- Zle_Qle. exact D1. }
  assert (QD2 : inject_Z (Z.pos d) < Qpower 2 (ld + 1)).
  { change 2 with (inject_Z 2). rewrite <- Zpower_Qpower by lia.
    rewrite <- Zlt_Qlt. replace (ld + 1)%Z with (Z.succ ld) by lia. exact D2. }
  assert (Dpos : 0 < inject_Z (Z.pos d)) by reflexivity.
  assert (E : n # d == inject_Z n / inject_Z (Z.pos d)) by apply Qmake_Qdiv.
  assert (Up : n # d < Qpower 2 (ln - ld + 1)).
  { rewrite E. apply Qlt_shift_div_r; [exact Dpos|].
    replace (ln - ld + 1)%Z with ((ln + 1) - ld)%Z by lia.
    rewrite Qpower_minus by discriminate.
    pose proof (binade_pos ld) as P. pose proof (binade_pos (ln + 1)) as P'.
    apply (quotient_bound _ _ _ _ P P' QN2 QD1). }
  assert (Lo : Qpower 2 (ln - ld - 1) < n # d).
  { rewrite E. apply Qlt_shift_div_l; [exact Dpos|].
    replace (ln - ld - 1)%Z with (ln - (ld + 1))%Z by lia.
    rewrite Qpower_minus by discriminate.
    pose proof (binade_pos (ld + 1)) as P. pose proof (binade_pos ln) as P'.
    apply (quotient_bound' _ _ _ _ P P' QN1 QD2). }
  destruct (Qle_bool (Qpower 2 (ln - ld)) (n # d)) eqn:B.
  - apply Qle_bool_iff in B. split; [exact B | exact Up].
  - split.
    + apply Qlt_le_weak. exact Lo.
    + replace (ln - ld - 1 + 1)%Z with (ln - ld)%Z by lia.
      apply Qnot_le_lt. intro K. apply Qle_bool_iff in K. congruence.
Qed.

(** Rounding to an integer moves by at most one half and does not cross
    an integer. *)
Lemma round_half_even_error (q : Q) :
  Qabs (inject_Z (round_half_even q) - q) <= 1 # 2.
Proof.
  unfold round_half_even.
  pose proof (Qfloor_le q) as L. pose proof (Qlt_floor q) as U.
  rewrite inject_Z_plus in U. change (inject_Z 1) with 1 in U.
  apply Qabs_Qle_condition.
  destruct (Qcompare (q - inject_Z (Qfloor q)) (1 # 2)) eqn:C.
  - apply Qeq_alt in C.
    destruct (Z.even (Qfloor q));
      [|rewrite inject_Z_plus; change (inject_Z 1) with 1]; lra.
  - apply Qlt_alt in C. lra.
  - apply Qgt_alt in C. rewrite inject_Z_plus. change (inject_Z 1) with 1. lra.
Qed.

Lemma round_half_even_le (q : Q) (n : Z) :
  q <= inject_Z n -> (round_half_even q <= n)%Z.
Proof.
  intros H. unfold round_half_even.
  pose proof (Qfloor_le q) as L.
  assert (F : (Qfloor q <= n)%Z).
  { rewrite <- (Qfloor_Z n). apply Qfloor_resp_le. exact H. }
  assert (S : q - inject_Z (Qfloor q) > 0 -> (Qfloor q + 1 <= n)%Z).
  { intros P. assert (Qfloor q < n)%Z; [|lia].
    rewrite Zlt_Qlt. lra. }
  destruct (Qcompare (q - inject_Z (Qfloor q)) (1 # 2)) eqn:C.
  - apply Qeq_alt in C. destruct (Z.even (Qfloor q)); [exact F|].
    apply S. lra.
  - exact F.
  - apply Qgt_alt in C. apply S. lra.
Qed.

Lemma round_half_even_ge (q : Q) (n : Z) :
  inject_Z n <= q -> (n <= round_half_even q)%Z.
Proof.
  intros H. unfold round_half_even.
  assert (F : (n <= Qfloor q)%Z).
  { rewrite <- (Qfloor_Z n). apply Qfloor_resp_le. exact H. }
  destruct (Qcompare (q - inject_Z (Qfloor q)) (1 # 2));
    [destruct (Z.even (Qfloor q))|..]; lia.
Qed.

(** The value of [round64] on a positive number. *)
Lemma round64_positive (x : Q) :
  0 < x ->
  round64 x
  = inject_Z (round_half_even (x * Qpower 2 (52 - floor_log2 x)))
    / Qpower 2 (52 - floor_log2 x).
Proof.
  intros H. unfold round64.
  destruct (Qeq_bool x 0) eqn:Z.
  - apply Qeq_bool_iff in Z. lra.
  - assert (A : Qabs x = x).
    { destruct x as [n d]. unfold Qlt in H. cbn in H.
      unfold Qabs. destruct n; try reflexivity; lia. }
    rewrite A.
    destruct (Qle_bool 0 x) eqn:P; [reflexivity|].
    exfalso. assert (K : Qle_bool 0 x = true) by (apply Qle_bool_iff; lra).
    congruence.
Qed.

Lemma round64_zero (x : Q) : x == 0 -> round64 x = 0.
Proof.
  intros H. unfold round64. apply Qeq_bool_iff in H. rewrite H. reflexivity.
Qed.

(** [round64] has relative error at most 2^-53. *)
Lemma round64_error_positive (x : Q) :
  0 < x -> Qabs (round64 x - x) <= (1 # 2 ^ 53) * x.
Proof.
  intros H. rewrite (round64_positive x H).
  destruct (floor_log2_spec x H) as [L _].
  set (e := floor_log2 x) in *.
  pose proof (binade_pos (52 - e)) as S.
  set (s := Qpower 2 (52 - e)) in *.
  pose proof (round_half_even_error (x * s)) as R.
  set (r := inject_Z (round_half_even (x * s))) in *.
  assert (Es : s * Qpower 2 e == Qpower 2 52).
  { unfold s. rewrite <- Qpower_plus by discriminate.
    replace (52 - e + e)%Z with 52%Z by lia. reflexivity. }
  assert (P52 : Qpower 2 52 == inject_Z (2 ^ 52)) by reflexivity.
  assert (Ne : ~ s == 0) by (intro K; rewrite K in S; discriminate S).
  assert (D : r / s - x == (r - x * s) / s) by (field; exact Ne).
  rewrite D. unfold Qdiv. rewrite Qabs_Qmult.
  rewrite (Qabs_pos (/ s)) by (apply Qlt_le_weak, Qinv_lt_0_compat; exact S).
  apply Qle_shift_div_r; [exact S|].
  apply Qle_trans with (1 # 2); [exact R|].
  assert (Qpower 2 52 <= x * s).
  { rewrite <- Es. rewrite (Qmult_comm x s). apply Qmult_le_l; assumption. }
  rewrite P52 in H0. 
  assert (G : (1 # 2) == (1 # 2 ^ 53) * inject_Z (2 ^ 52)) by reflexivity.
  rewrite G. rewrite <- Qmult_assoc. apply Qmult_le_l; [reflexivity|exact H0].
Qed.

Lemma round64_negative (x : Q) : x < 0 -> round64 x = - round64 (- x).
Proof.
  intros H. destruct x as [[|p|p] d]; try discriminate H. reflexivity.
Qed.

Lemma round64_error (x : Q) :
  Qabs (round64 x - x) <= (1 # 2 ^ 53) * Qabs x.
Proof.
  destruct (Q_dec x 0) as [[N|P]|Z].
  - rewrite (round64_negative x N).
    assert (P : 0 < - x) by lra.
    pose proof (round64_error_positive (- x) P) as E.
    rewrite (Qabs_neg x) by lra.
    assert (K : - round64 (- x) - x == - (round64 (- x) - - x)) by ring.
    rewrite K, Qabs_opp. exact E.
  - rewrite (Qabs_pos x) by lra. apply round64_error_positive. exact P.
  - rewrite (round64_zero x Z). rewrite Z. discriminate.
Qed.

(** A positive number and its rounding lie in the same binade. *)
Lemma round64_binade (x : Q) :
  0 < x ->
  Qpower 2 (floor_log2 x) <= round64 x /\
  round64 x <= Qpower 2 (floor_log2 x + 1).
Proof.
  intros H. rewrite (round64_positive x H).
  destruct (floor_log2_spec x H) as [L U].
  set (e := floor_log2 x) in *.
  pose proof (binade_pos (52 - e)) as S.
  assert (E1 : Qpower 2 e * Qpower 2 (52 - e) == inject_Z (2 ^ 52)).
  { rewrite <- Qpower_plus by discriminate.
    replace (e + (52 - e))%Z with 52%Z by lia. reflexivity. }
  assert (E2 : Qpower 2 (e + 1) * Qpower 2 (52 - e) == inject_Z (2 ^ 53)).
  { rewrite <- Qpower_plus by discriminate.
    replace (e + 1 + (52 - e))%Z with 53%Z by lia. reflexivity. }
  set (s := Qpower 2 (52 - e)) in *.
  split.
  - apply Qle_shift_div_l; [exact S|]. rewrite E1. rewrite <- Zle_Qle.
    apply round_half_even_ge. rewrite <- E1.
    apply Qmult_le_compat_r; [exact L | lra].
  - apply Qle_shift_div_r; [exact S|]. rewrite E2. rewrite <- Zle_Qle.
    apply round_half_even_le. rewrite <- E2.
    apply Qmult_le_compat_r; lra.
Qed.

Lemma round64_pos (x : Q) : 0 < x -> 0 < round64 x.
Proof.
  intros H. destruct (round64_binade x H) as [L _].
  pose proof (binade_pos (floor_log2 x)). lra.
Qed.

Lemma round64_nonneg (x : Q) : 0 <= x -> 0 <= round64 x.
Proof.
  intros H. destruct (Qle_lt_or_eq _ _ H) as [P|Z].
  - apply Qlt_le_weak, round64_pos, P.
  - rewrite (round64_zero x) by (symmetry; exact Z). lra.
Qed.

Lemma round64_nonpos (x : Q) : x <= 0 -> round64 x <= 0.
Proof.
  intros H. destruct (Qle_lt_or_eq _ _ H) as [P|Z].
  - rewrite (round64_negative x P).
    assert (0 < round64 (- x)) by (apply round64_pos; lra). lra.
  - rewrite (round64_zero x Z). lra.
Qed.

(** Rounding does not cross an integer below 2^53 (such an integer is a
    float64). *)
Lemma round64_le_integer (x : Q) (n : Z) :
  (0 <= n < 2 ^ 53)%Z -> x <= inject_Z n -> round64 x <= inject_Z n.
Proof.
  intros [N0 N] H.
  assert (In0 : 0 <= inject_Z n).
  { change 0 with (inject_Z 0). rewrite <- Zle_Qle. exact N0. }
  destruct (Qlt_le_dec 0 x) as [P|NP];
    [|apply Qle_trans with 0; [apply round64_nonpos; exact NP | exact In0]].
  rewrite (round64_positive x P).
  destruct (floor_log2_spec x P) as [L _].
  set (e := floor_log2 x) in *.
  assert (E : (e < 53)%Z).
  { apply Qpower_lt_compat_l_inv with (q := 2); [|reflexivity].
    apply Qle_lt_trans with (1 := L). apply Qle_lt_trans with (1 := H).
    change (Qpower 2 53) with (inject_Z (2 ^ 53)). rewrite <- Zlt_Qlt. exact N. }
  pose proof (binade_pos (52 - e)) as S.
  assert (I : Qpower 2 (52 - e) == inject_Z (2 ^ (52 - e))).
  { change 2 with (inject_Z 2) at 1. rewrite Zpower_Qpower by lia. reflexivity. }
  set (s := Qpower 2 (52 - e)) in *.
  apply Qle_shift_div_r; [exact S|].
  apply Qle_trans with (inject_Z (n * 2 ^ (52 - e))).
  - rewrite <- Zle_Qle. apply round_half_even_le.
    rewrite inject_Z_mult, <- I.
    apply Qmult_le_compat_r; [exact H | lra].
  - rewrite inject_Z_mult, <- I. apply Qle_refl.
Qed.

Lemma round64_ge_integer (x : Q) (n : Z) :
  (0 <= n < 2 ^ 53)%Z -> inject_Z n <= x -> inject_Z n <= round64 x.
Proof.
  intros [N0 N] H.
  assert (In0 : 0 <= inject_Z n).
  { change 0 with (inject_Z 0). rewrite <- Zle_Qle. exact N0. }
  destruct (Qlt_le_dec 0 x) as [P|NP].
  2:{ assert (Z : x == 0) by lra. rewrite (round64_zero x Z). lra. }
  destruct (round64_binade x P) as [B _].
  destruct (floor_log2_spec x P) as [L _].
  destruct (Z_lt_le_dec (floor_log2 x) 53) as [E|E].
  - rewrite (round64_positive x P).
    set (e := floor_log2 x) in *.
    pose proof (binade_pos (52 - e)) as S.
    assert (I : Qpower 2 (52 - e) == inject_Z (2 ^ (52 - e))).
    { change 2 with (inject_Z 2) at 1. rewrite Zpower_Qpower by lia. reflexivity. }
    set (s := Qpower 2 (52 - e)) in *.
    apply Qle_shift_div_l; [exact S|].
    apply Qle_trans with (inject_Z (n * 2 ^ (52 - e))).
    + rewrite inject_Z_mult, <- I. apply Qle_refl.
    + rewrite <- Zle_Qle. apply round_half_even_ge.
      rewrite inject_Z_mult, <- I.
      apply Qmult_le_compat_r; [exact H | lra].
  - apply Qle_trans with (2 := B).
    apply Qle_trans with (Qpower 2 53).
    + change (Qpower 2 53) with (inject_Z (2 ^ 53)). rewrite <- Zle_Qle. lia.
    + apply Qpower_le_compat_l; [exact E | discriminate].
Qed.

(** The float64 evaluation of an oscillator entry stays in [0, 100]. *)
Lemma rsi_entry_binary64_range (g l : Q) :
  0 <= g -> 0 <= l ->
  0 <= rsi_entry_binary64 g l /\ rsi_entry_binary64 g l <= 100.
Proof.
  intros G L. unfold rsi_entry_binary64. cbv zeta.
  assert (E : 0 < round64 epsilon) by (apply round64_pos; reflexivity).
  assert (D : 0 < round64 (l + round64 epsilon)) by (apply round64_pos; lra).
  set (d := round64 (l + round64 epsilon)) in *.
  assert (RS : 0 <= round64 (g / d)).
  { apply round64_nonneg. apply Qle_shift_div_l; [exact D | lra]. }
  set (rs := round64 (g / d)) in *.
  assert (O : 1 <= round64 (1 + rs)).
  { apply (round64_ge_integer (1 + rs) 1); [lia | unfold inject_Z; lra]. }
  set (o := round64 (1 + rs)) in *.
  assert (Q0 : 0 <= round64 (100 / o)).
  { apply round64_nonneg. apply Qle_shift_div_l; lra. }
  assert (Q1 : round64 (100 / o) <= 100).
  { apply (round64_le_integer (100 / o) 100); [lia|].
    unfold inject_Z. apply Qle_shift_div_r; lra. }
  set (q := round64 (100 / o)) in *.
  split.
  - apply round64_nonneg. lra.
  - apply (round64_le_integer (100 - q) 100); [lia | unfold inject_Z; lra].
Qed.

(** Sizing and the check [amount * price] in float64. *)
Lemma trade_amount_binary64_round_trip (balance risk price : Q) :
  ~ price == 0 ->
  let risk_amount := risk_amount_binary64 balance risk in
  let amount := trade_amount_binary64 balance risk price in
  Qabs (round64 (amount * price) - risk_amount)
  <= (1 # 2 ^ 51) * Qabs risk_amount.
Proof.
  intros NZ. cbv zeta. unfold trade_amount_binary64.
  set (R := risk_amount_binary64 balance risk).
  set (A := round64 (R / price)).
  pose proof (round64_error (R / price)) as H1. fold A in H1.
  pose proof (round64_error (A * price)) as H2.
  assert (P : 0 < Qabs price).
  { destruct (Qle_lt_or_eq _ _ (Qabs_nonneg price)) as [K|K]; [exact K|].
    exfalso. apply NZ. destruct (Qabs_Qle_condition price 0) as [F _].
    destruct F as [F1 F2]; [rewrite <- K; apply Qle_refl | lra]. }
  assert (H1' : Qabs (A * price - R) <= (1 # 2 ^ 53) * Qabs R).
  { assert (E1 : A * price - R == (A - R / price) * price) by (field; exact NZ).
    assert (E2 : R == R / price * price) by (field; exact NZ).
    rewrite E1, Qabs_Qmult. rewrite E2 at 2. rewrite Qabs_Qmult.
    rewrite Qmult_assoc. apply Qmult_le_compat_r; [exact H1 | lra]. }
  assert (T1 : Qabs (A * price) <= Qabs R + Qabs (A * price - R)).
  { assert (E : A * price == R + (A * price - R)) by ring.
    rewrite E at 1. apply Qabs_triangle. }
  assert (T2 : Qabs (round64 (A * price) - R)
               <= Qabs (round64 (A * price) - A * price) + Qabs (A * price - R)).
  { assert (E : round64 (A * price) - R
                == (round64 (A * price) - A * price) + (A * price - R)) by ring.
    rewrite E at 1. apply Qabs_triangle. }
  pose proof (Qabs_nonneg R) as R0.
  change (1 # 2 ^ 53) with (1 # 9007199254740992) in *.
  change (1 # 2 ^ 51) with (1 # 2251799813685248).
  lra.
Qed.

Lemma trade_amount_binary64_close (balance risk price : Q) :
  ~ price == 0 ->
  Qabs (trade_amount_binary64 balance risk price - balance * risk / price)
  <= (1 # 2 ^ 51) * Qabs (balance * risk / price).
Proof.
  intros NZ. unfold trade_amount_binary64, risk_amount_binary64.
  set (x := balance * risk).
  pose proof (round64_error x) as H1.
  pose proof (round64_error (round64 x / price)) as H2.
  set (R := round64 x) in *. set (A := round64 (R / price)) in *.
  assert (P : 0 < Qabs (/ price)).
  { destruct (Qle_lt_or_eq _ _ (Qabs_nonneg (/ price))) as [K|K]; [exact K|].
    exfalso. destruct (Qabs_Qle_condition (/ price) 0) as [F _].
    destruct F as [F1 F2]; [rewrite <- K; apply Qle_refl|].
    assert (Z : / price == 0) by lra.
    apply NZ. rewrite <- (Qinv_involutive price), Z. reflexivity. }
  assert (H1' : Qabs (R / price - x / price) <= (1 # 2 ^ 53) * Qabs (x / price)).
  { assert (E1 : R / price - x / price == (R - x) * / price) by (field; exact NZ).
    rewrite E1, Qabs_Qmult. unfold Qdiv. rewrite (Qabs_Qmult x).
    rewrite Qmult_assoc. apply Qmult_le_compat_r; [exact H1 | lra]. }
  assert (T1 : Qabs (R / price) <= Qabs (x / price) + Qabs (R / price - x / price)).
  { assert (E : R / price == x / price + (R / price - x / price)) by ring.
    rewrite E at 1. apply Qabs_triangle. }
  assert (T2 : Qabs (A - x / price)
               <= Qabs (A - R / price) + Qabs (R / price - x / price)).
  { assert (E : A - x / price == (A - R / price) + (R / price - x / price)) by ring.
    rewrite E at 1. apply Qabs_triangle. }
  pose proof (Qabs_nonneg (x / price)) as R0.
  change (1 # 2 ^ 53) with (1 # 9007199254740992) in *.
  change (1 # 2 ^ 51) with (1 # 2251799813685248).
  lra.
Qed.

(** ** Comparisons and lengths *)

Lemma Qltb_lt (x y : Q) : Qltb x y = true <-> x < y.
Proof.
  unfold Qltb. rewrite negb_true_iff.
  split; intro H.
  - apply Qnot_le_lt. intro L. apply Qle_bool_iff in L. congruence.
  - destruct (Qle_bool y x) eqn:E; [|reflexivity].
    apply Qle_bool_iff in E. exfalso. apply (Qlt_not_le _ _ H E).
Qed.

Lemma Qltb_ge (x y : Q) : Qltb x y = false <-> y <= x.
Proof.
  unfold Qltb. rewrite negb_false_iff. apply Qle_bool_iff.
Qed.

Lemma Qleb_le (x y : Q) : Qleb x y = true <-> x <= y.
Proof. apply Qle_bool_iff. Qed.

Lemma Qleb_gt (x y : Q) : Qleb x y = false <-> y < x.
Proof.
  unfold Qleb. split; intro H.
  - apply Qnot_le_lt. intro L. apply Qle_bool_iff in L. congruence.
  - destruct (Qle_bool x y) eqn:E; [|reflexivity].
    apply Qle_bool_iff in E. exfalso. apply (Qlt_not_le _ _ H E).
Qed.

Lemma diff_from_length (s : list Q) :
  forall prev, length (Pandas.diff_from prev s) = length s.
Proof. induction s as [|x r IH]; intros prev; simpl; [|rewrite IH]; reflexivity. Qed.

Lemma diff_length (s : list Q) : length (Pandas.diff s) = length s.
Proof. destruct s; simpl; [|rewrite diff_from_length]; reflexivity. Qed.

Lemma where_length cond other s : length (Pandas.where_ cond other s) = length s.
Proof. unfold Pandas.where_. apply length_map. Qed.

Lemma ewm_from_length alpha (s : list Q) :
  forall y, length (Pandas.ewm_from alpha y s) = length s.
Proof. induction s as [|x r IH]; intros y; simpl; [|rewrite IH]; reflexivity. Qed.

Lemma ewm_mean_length alpha s : length (Pandas.ewm_mean alpha s) = length s.
Proof. destruct s; simpl; [|rewrite ewm_from_length]; reflexivity. Qed.

Lemma zip_with_length f (a : list Q) :
  forall b, length a = length b -> length (Pandas.zip_with f a b) = length a.
Proof.
  induction a as [|x a IH]; intros [|y b] E; simpl in *; try congruence.
  rewrite IH; congruence.
Qed.

Lemma gain_length closes : length (gain_of closes) = length closes.
Proof. unfold gain_of. rewrite where_length. apply diff_length. Qed.

Lemma loss_length closes : length (loss_of closes) = length closes.
Proof. unfold loss_of. rewrite length_map, where_length. apply diff_length. Qed.

Lemma oscillator_length alpha closes :
  length (oscillator alpha closes) = length closes.
Proof.
  unfold oscillator, avg_gain_of, avg_loss_of.
  rewrite zip_with_length; rewrite !ewm_mean_length, ?gain_length, ?loss_length;
    reflexivity.
Qed.

(** ** The smoothing factor *)

Lemma smoothing_alpha_range cfg alpha :
  smoothing_alpha cfg = Ok alpha -> 0 < alpha /\ alpha <= 1.
Proof.
  unfold smoothing_alpha, py_div, Pandas.check_alpha.
  destruct (Qeq_bool _ 0); [discriminate|].
  destruct (Qltb 0 _) eqn:L; [|discriminate].
  destruct (Qleb _ 1) eqn:U; [|discriminate].
  simpl. intros [= <-]. split; [apply Qltb_lt | apply Qleb_le]; assumption.
Qed.

Lemma smoothing_alpha_ok cfg :
  (1 <= ema_window cfg)%Z ->
  smoothing_alpha cfg = Ok (1 / inject_Z (ema_window cfg)).
Proof.
  intros W. unfold smoothing_alpha, py_div, Pandas.check_alpha.
  assert (P : 1 <= inject_Z (ema_window cfg)).
  { change 1 with (inject_Z 1). rewrite <- Zle_Qle. exact W. }
  destruct (Qeq_bool (inject_Z (ema_window cfg)) 0) eqn:Z0.
  { apply Qeq_bool_iff in Z0. lra. }
  assert (L : 0 < 1 / inject_Z (ema_window cfg)).
  { apply Qlt_shift_div_l; lra. }
  assert (U : 1 / inject_Z (ema_window cfg) <= 1).
  { apply Qle_shift_div_r; lra. }
  apply Qltb_lt in L. apply Qleb_le in U. rewrite L, U. reflexivity.
Qed.

(** ** Bounds on gains, losses and their averages *)

Lemma gain_nonneg closes : Forall (fun v => 0 <= v) (gain_of closes).
Proof.
  unfold gain_of, Pandas.where_. apply Forall_map, Forall_forall.
  intros [v|] _; [|lra].
  destruct (Qltb 0 v) eqn:E; [apply Qltb_lt in E|]; lra.
Qed.

Lemma loss_nonneg closes : Forall (fun v => 0 <= v) (loss_of closes).
Proof.
  unfold loss_of, Pandas.where_. rewrite map_map. apply Forall_map, Forall_forall.
  intros [v|] _; [|lra].
  destruct (Qltb v 0) eqn:E; [apply Qltb_lt in E|]; lra.
Qed.

Lemma ewm_from_nonneg alpha (s : list Q) :
  0 <= alpha -> alpha <= 1 -> Forall (fun v => 0 <= v) s ->
  forall y, 0 <= y -> Forall (fun v => 0 <= v) (Pandas.ewm_from alpha y s).
Proof.
  intros A0 A1 F. induction F as [|x r Hx _ IH]; intros y Hy; simpl.
  - constructor.
  - assert (N : 0 <= (1 - alpha) * y + alpha * x).
    { assert (0 <= (1 - alpha) * y) by (apply Qmult_le_0_compat; lra).
      assert (0 <= alpha * x) by (apply Qmult_le_0_compat; lra).
      lra. }
    constructor; [exact N | apply IH; exact N].
Qed.

Lemma ewm_mean_nonneg alpha (s : list Q) :
  0 <= alpha -> alpha <= 1 -> Forall (fun v => 0 <= v) s ->
  Forall (fun v => 0 <= v) (Pandas.ewm_mean alpha s).
Proof.
  intros A0 A1 F. destruct F as [|x r Hx F]; simpl; constructor.
  - exact Hx.
  - apply ewm_from_nonneg; assumption.
Qed.

Lemma rsi_entry_range (g l : Q) :
  0 <= g -> 0 <= l -> 0 <= rsi_entry g l /\ rsi_entry g l < 100.
Proof.
  intros Hg Hl. unfold rsi_entry.
  assert (E : 0 < l + epsilon) by (unfold epsilon; lra).
  assert (R : 0 <= g / (l + epsilon)) by (apply Qle_shift_div_l; lra).
  set (rs := g / (l + epsilon)) in *.
  assert (U : 100 / (1 + rs) <= 100) by (apply Qle_shift_div_r; lra).
  assert (L : 0 < 100 / (1 + rs)) by (apply Qlt_shift_div_l; lra).
  lra.
Qed.

Lemma rsi_entry_zero_gain (l : Q) : 0 <= l -> rsi_entry 0 l == 0.
Proof.
  intros Hl. unfold rsi_entry.
  assert (E : ~ l + epsilon == 0) by (unfold epsilon; lra).
  field. exact E.
Qed.

Lemma zip_with_Forall (P R S : Q -> Prop) f (a : list Q) :
  (forall x y, P x -> R y -> S (f x y)) ->
  Forall P a -> forall b, Forall R b -> Forall S (Pandas.zip_with f a b).
Proof.
  intros H Fa. induction Fa as [|x a Hx _ IH]; intros b Fb; simpl.
  - constructor.
  - destruct Fb as [|y b Hy Fb]; constructor; auto.
Qed.

Lemma oscillator_range alpha closes :
  0 < alpha -> alpha <= 1 ->
  Forall (fun v => 0 <= v /\ v < 100) (oscillator alpha closes).
Proof.
  intros A0 A1. unfold oscillator, avg_gain_of, avg_loss_of.
  apply zip_with_Forall
    with (P := fun v => 0 <= v) (R := fun v => 0 <= v).
  - intros x y. apply rsi_entry_range.
  - apply ewm_mean_nonneg; [lra | lra | apply gain_nonneg].
  - apply ewm_mean_nonneg; [lra | lra | apply loss_nonneg].
Qed.

(** The first entry of the oscillator is 0 whatever the closes are: the
    first delta is NaN, so the first gain is 0. *)
Lemma oscillator_head alpha closes x r :
  oscillator alpha closes = x :: r -> x == 0.
Proof.
  destruct closes as [|c cs]; [discriminate|].
  unfold oscillator, avg_gain_of, avg_loss_of, gain_of, loss_of. simpl.
  intros [= <- _]. apply rsi_entry_zero_gain. lra.
Qed.

(** ** The recurrence of the exponential average, by index *)

Lemma ewm_from_nth alpha (s : list Q) :
  forall y i, (i < length s)%nat ->
    nth i (Pandas.ewm_from alpha y s) 0
    = (1 - alpha) * nth i (y :: Pandas.ewm_from alpha y s) 0 + alpha * nth i s 0.
Proof.
  induction s as [|x r IH]; intros y i Hi; simpl in Hi; [lia|].
  destruct i as [|i]; [reflexivity|].
  change (nth (S i) (Pandas.ewm_from alpha y (x :: r)) 0)
    with (nth i (Pandas.ewm_from alpha ((1 - alpha) * y + alpha * x) r) 0).
  rewrite IH by lia. reflexivity.
Qed.

Lemma ewm_mean_seed alpha (s : list Q) :
  nth 0 (Pandas.ewm_mean alpha s) 0 = nth 0 s 0.
Proof. destruct s; reflexivity. Qed.

Lemma ewm_mean_step alpha (s : list Q) i :
  (S i < length s)%nat ->
  nth (S i) (Pandas.ewm_mean alpha s) 0
  == alpha * nth (S i) s 0 + (1 - alpha) * nth i (Pandas.ewm_mean alpha s) 0.
Proof.
  destruct s as [|x r]; intros Hi; [simpl in Hi; lia|].
  change (nth (S i) (Pandas.ewm_mean alpha (x :: r)) 0)
    with (nth i (Pandas.ewm_from alpha x r) 0).
  change (nth (S i) (x :: r) 0) with (nth i r 0).
  change (Pandas.ewm_mean alpha (x :: r)) with (x :: Pandas.ewm_from alpha x r).
  simpl in Hi. rewrite ewm_from_nth by lia. ring.
Qed.

Lemma zip_with_nth f (a : list Q) :
  forall b i, (i < length a)%nat -> (i < length b)%nat ->
    nth i (Pandas.zip_with f a b) 0 = f (nth i a 0) (nth i b 0).
Proof.
  induction a as [|x a IH]; intros [|y b] i Ha Hb; simpl in *; try lia.
  destruct i as [|i]; [reflexivity|]. apply IH; lia.
Qed.

Lemma close_column_length df : length (close_column df) = length (rows df).
Proof. unfold close_column. apply length_map. Qed.

(** ** The oscillator *)

(** C8.  With a smoothing window of at least 1, [_calculate_rsi_wilders]
    returns the frame with an oscillator column as long as the frame; the
    averaged gain and the averaged loss are seeded with their first sample
    and follow [avg[i] = alpha*value[i] + (1-alpha)*avg[i-1]] with
    [alpha = 1/ema_window]; every oscillator entry is
    [100 - 100/(1 + avg_gain/(avg_loss + 1e-10))]. *)
Theorem oscillator_length_and_recurrence (cfg : RSIConfig) (df : DataFrame) :
  (1 <= ema_window cfg)%Z ->
  let n := length (rows df) in
  let closes := close_column df in
  let alpha := 1 / inject_Z (ema_window cfg) in
  let ag := avg_gain_of alpha closes in
  let al := avg_loss_of alpha closes in
  let s := oscillator alpha closes in
  _calculate_rsi_wilders cfg df = Ok (set_rsi df s) /\
  length s = n /\ length ag = n /\ length al = n /\
  nth 0 ag 0 = nth 0 (gain_of closes) 0 /\
  nth 0 al 0 = nth 0 (loss_of closes) 0 /\
  (forall i, (S i < n)%nat ->
     nth (S i) ag 0
       == alpha * nth (S i) (gain_of closes) 0 + (1 - alpha) * nth i ag 0 /\
     nth (S i) al 0
       == alpha * nth (S i) (loss_of closes) 0 + (1 - alpha) * nth i al 0) /\
  (forall i, (i < n)%nat -> nth i s 0 = rsi_entry (nth i ag 0) (nth i al 0)).
Proof.
  intros W n closes alpha ag al s.
  assert (Lg : length ag = n).
  { unfold ag, avg_gain_of. rewrite ewm_mean_length, gain_length.
    apply close_column_length. }
  assert (Ll : length al = n).
  { unfold al, avg_loss_of. rewrite ewm_mean_length, loss_length.
    apply close_column_length. }
  repeat split.
  - unfold _calculate_rsi_wilders. rewrite smoothing_alpha_ok by exact W.
    reflexivity.
  - unfold s. rewrite oscillator_length. apply close_column_length.
  - exact Lg.
  - exact Ll.
  - apply ewm_mean_seed.
  - apply ewm_mean_seed.
  - apply ewm_mean_step. rewrite gain_length.
    unfold closes. rewrite close_column_length. assumption.
  - apply ewm_mean_step. rewrite loss_length.
    unfold closes. rewrite close_column_length. assumption.
  - intros i Hi. unfold s, oscillator. apply zip_with_nth.
    + fold ag. lia.
    + fold al. lia.
Qed.

Lemma oscillator_length_and_recurrence_witness :
  let df := frame_of_closes [10; 11; 21 # 2] in
  (1 <= ema_window default_config)%Z /\
  length (oscillator (1 / inject_Z 14) (close_column df)) = 3%nat.
Proof.
  split.
  - simpl. lia.
  - apply (oscillator_length_and_recurrence default_config
             (frame_of_closes [10; 11; 21 # 2])).
    simpl. lia.
Defined.

(** C2, as the code has it.  With a smoothing window of at least 1, every
    entry of the oscillator column lies in the closed interval [0, 100],
    and 0 is reached: the first entry is always 0.  The bound 100 cannot
    be made strict for the code: evaluated in float64
    ([rsi_entry_binary64]), the expression of an entry stays in [0, 100]
    for whatever non-negative averages, and is exactly 100 on an average
    gain of 71428571 with no loss (closes 1, 1e9). *)
Theorem oscillator_closed_range (cfg : RSIConfig) (df : DataFrame) :
  (1 <= ema_window cfg)%Z ->
  (exists s, _calculate_rsi_wilders cfg df = Ok (set_rsi df s) /\
             Forall (fun v => 0 <= v /\ v <= 100) s /\
             (forall x r, s = x :: r -> x == 0)) /\
  (forall g l, 0 <= g -> 0 <= l ->
     0 <= rsi_entry_binary64 g l /\ rsi_entry_binary64 g l <= 100) /\
  rsi_entry_binary64 71428571 0 == 100.
Proof.
  intros W. pose proof (smoothing_alpha_ok cfg W) as A.
  destruct (smoothing_alpha_range cfg _ A) as [A0 A1].
  split; [|split].
  - exists (oscillator (1 / inject_Z (ema_window cfg)) (close_column df)).
    split; [|split].
    + unfold _calculate_rsi_wilders. rewrite A. reflexivity.
    + eapply Forall_impl; [|apply oscillator_range; eassumption].
      intros v [L U]. split; [exact L | apply Qlt_le_weak; exact U].
    + intros x r. apply oscillator_head.
  - apply rsi_entry_binary64_range.
  - vm_compute. reflexivity.
Qed.

Lemma oscillator_closed_range_witness :
  (1 <= ema_window default_config)%Z /\
  exists s,
    _calculate_rsi_wilders default_config (frame_of_closes [10; 11; 21 # 2])
      = Ok (set_rsi (frame_of_closes [10; 11; 21 # 2]) s) /\
    Forall (fun v => 0 <= v /\ v <= 100) s /\
    (forall x r, s = x :: r -> x == 0).
Proof.
  assert (W : (1 <= ema_window default_config)%Z) by (simpl; lia).
  split; [exact W|].
  exact (proj1 (oscillator_closed_range default_config
                  (frame_of_closes [10; 11; 21 # 2]) W)).
Defined.

(** C2, as stated, fails: on the falling window 10, 9, 8 (no delta is
    zero) every entry of the oscillator is exactly 0. *)
Lemma oscillator_open_interval_counterexample :
  nondegenerate [10; 9; 8] = true /\
  exists s,
    _calculate_rsi_wilders default_config (frame_of_closes [10; 9; 8])
      = Ok (set_rsi (frame_of_closes [10; 9; 8]) s) /\
    length s = 3%nat /\
    Forall (fun v => v == 0) s /\
    ~ Forall (fun v => 0 < v /\ v < 100) s.
Proof.
  split; [reflexivity|].
  exists (oscillator (1 / inject_Z 14) [10; 9; 8]).
  split; [|split; [|split]].
  - unfold _calculate_rsi_wilders.
    rewrite smoothing_alpha_ok by (simpl; lia). reflexivity.
  - reflexivity.
  - vm_compute. repeat constructor.
  - intro F. inversion F as [|x r [H _] _]. vm_compute in H. discriminate.
Qed.

(** ** The signal *)

Lemma classify_buy cfg latest :
  classify cfg latest = BUY <-> latest < oversold cfg.
Proof.
  unfold classify. destruct (Qltb latest (oversold cfg)) eqn:B.
  - apply Qltb_lt in B. tauto.
  - apply Qltb_ge in B.
    destruct (Qltb (overbought cfg) latest); split; try discriminate; lra.
Qed.

Lemma classify_sell cfg latest :
  oversold cfg <= overbought cfg ->
  classify cfg latest = SELL <-> overbought cfg < latest.
Proof.
  intros O. unfold classify. destruct (Qltb latest (oversold cfg)) eqn:B.
  - apply Qltb_lt in B. split; [discriminate | lra].
  - destruct (Qltb (overbought cfg) latest) eqn:S.
    + apply Qltb_lt in S. tauto.
    + apply Qltb_ge in S. split; [discriminate | lra].
Qed.

Lemma classify_hold cfg latest :
  classify cfg latest = HOLD <->
  oversold cfg <= latest /\ latest <= overbought cfg.
Proof.
  unfold classify. destruct (Qltb latest (oversold cfg)) eqn:B.
  - apply Qltb_lt in B. split; [discriminate | lra].
  - apply Qltb_ge in B. destruct (Qltb (overbought cfg) latest) eqn:S.
    + apply Qltb_lt in S. split; [discriminate | lra].
    + apply Qltb_ge in S. tauto.
Qed.

Lemma iloc_last_nonempty (s : list Q) :
  s <> [] -> exists v, iloc_last s = Ok v.
Proof. destruct s as [|x r]; [congruence|]. intros _. eexists. reflexivity. Qed.

(** What [generate_signal] returns on a window that is long enough. *)
Lemma generate_signal_long cfg df alpha latest :
  (rsi_period cfg <= len df)%Z ->
  smoothing_alpha cfg = Ok alpha ->
  iloc_last (oscillator alpha (close_column df)) = Ok latest ->
  generate_signal cfg df
  = (Ok (classify cfg latest), set_rsi df (oscillator alpha (close_column df))).
Proof.
  intros L A I. unfold generate_signal, _calculate_rsi_wilders.
  apply Z.ltb_ge in L. rewrite L, A. simpl. rewrite I. reflexivity.
Qed.

(** C1.  Under the invariants of the configuration: a window shorter than
    [rsi_period] gives HOLD; otherwise the signal is read off the last
    oscillator value [latest]: BUY exactly when [latest < oversold], SELL
    exactly when [latest > overbought], HOLD exactly in between, both
    thresholds included. *)
Theorem generate_signal_threshold_mapping (cfg : RSIConfig) (df : DataFrame) :
  config_valid cfg ->
  ((len df < rsi_period cfg)%Z -> fst (generate_signal cfg df) = Ok HOLD) /\
  ((rsi_period cfg <= len df)%Z ->
   exists alpha latest sig,
     smoothing_alpha cfg = Ok alpha /\
     iloc_last (oscillator alpha (close_column df)) = Ok latest /\
     fst (generate_signal cfg df) = Ok sig /\
     (sig = BUY <-> latest < oversold cfg) /\
     (sig = SELL <-> overbought cfg < latest) /\
     (sig = HOLD <-> oversold cfg <= latest /\ latest <= overbought cfg) /\
     (latest == oversold cfg \/ latest == overbought cfg -> sig = HOLD)).
Proof.
  intros (P & O0 & O1 & O2 & W). split.
  - intros S. unfold generate_signal. apply Z.ltb_lt in S. rewrite S. reflexivity.
  - intros L.
    pose proof (smoothing_alpha_ok cfg W) as A.
    destruct (iloc_last_nonempty
                (oscillator (1 / inject_Z (ema_window cfg)) (close_column df)))
      as [latest I].
    { intro E. apply (f_equal (@length Q)) in E.
      rewrite oscillator_length, close_column_length in E.
      unfold len in L. simpl in E. lia. }
    exists (1 / inject_Z (ema_window cfg)), latest, (classify cfg latest).
    rewrite (generate_signal_long cfg df _ _ L A I). simpl.
    repeat split; try assumption.
    + apply classify_buy.
    + apply classify_buy.
    + apply classify_sell. lra.
    + apply classify_sell. lra.
    + apply classify_hold; assumption.
    + apply classify_hold; assumption.
    + intros (H1 & H2). apply classify_hold. split; assumption.
    + intros [E | E]; apply classify_hold; lra.
Qed.

Lemma generate_signal_threshold_mapping_witness :
  config_valid default_config /\
  fst (generate_signal default_config (frame_of_closes [10; 11; 21 # 2]))
  = Ok HOLD.
Proof.
  assert (V : config_valid default_config).
  { unfold config_valid. simpl. repeat split; try lia; reflexivity. }
  split.
  - exact V.
  - apply (generate_signal_threshold_mapping
             default_config (frame_of_closes [10; 11; 21 # 2]) V).
    vm_compute. reflexivity.
Defined.

(** C9, as stated, fails: a call on a window of 15 bars leaves the caller's
    frame with one column more than it had. *)
Lemma generate_signal_mutates_frame :
  let df := frame_of_closes [1; 2; 3; 4; 5; 6; 7; 8; 9; 10; 11; 12; 13; 14; 15] in
  rsi df = None /\
  rsi (snd (generate_signal default_config df)) <> None /\
  snd (generate_signal default_config df) <> df.
Proof.
  intros df. split; [reflexivity|].
  assert (R : rsi (snd (generate_signal default_config df)) <> None).
  { vm_compute. discriminate. }
  split; [exact R|].
  intro E. apply R. rewrite E. reflexivity.
Qed.

(** C9, as the code has it.  [generate_signal] is a function of the
    configuration and the frame alone (no attribute of the strategy object
    is read or written except [config]); it never touches the six OHLCV
    columns; it leaves a window shorter than [rsi_period] wholly untouched;
    and whenever it changes the frame, the change is the assignment of the
    oscillator to the column ['rsi'], which it does make on every window
    that is long enough when the smoothing window is at least 1. *)
Theorem generate_signal_frame_effect (cfg : RSIConfig) (df : DataFrame) :
  rows (snd (generate_signal cfg df)) = rows df /\
  ((len df < rsi_period cfg)%Z -> generate_signal cfg df = (Ok HOLD, df)) /\
  (snd (generate_signal cfg df) = df \/
   exists alpha, smoothing_alpha cfg = Ok alpha /\
     snd (generate_signal cfg df)
     = set_rsi df (oscillator alpha (close_column df))) /\
  ((rsi_period cfg <= len df)%Z -> (1 <= ema_window cfg)%Z ->
   snd (generate_signal cfg df)
   = set_rsi df (oscillator (1 / inject_Z (ema_window cfg)) (close_column df))).
Proof.
  unfold generate_signal, _calculate_rsi_wilders.
  destruct (len df <? rsi_period cfg)%Z eqn:S.
  - repeat split; auto. apply Z.ltb_lt in S. intros; lia.
  - apply Z.ltb_ge in S.
    destruct (smoothing_alpha cfg) as [alpha|e] eqn:A; simpl.
    + assert (E : snd (match iloc_last (oscillator alpha (close_column df)) with
                       | Ok latest_rsi =>
                           (Ok (classify cfg latest_rsi),
                            set_rsi df (oscillator alpha (close_column df)))
                       | Raise e =>
                           (Raise e,
                            set_rsi df (oscillator alpha (close_column df)))
                       end)
                  = set_rsi df (oscillator alpha (close_column df))).
      { destruct (iloc_last _); reflexivity. }
      rewrite E. repeat split.
      * intros; lia.
      * right. exists alpha. split; reflexivity.
      * intros _ W. rewrite (smoothing_alpha_ok cfg W) in A.
        injection A as <-. reflexivity.
    + repeat split; auto.
      * intros; lia.
      * intros _ W. rewrite (smoothing_alpha_ok cfg W) in A. discriminate.
Qed.

(** ** Running the methods *)

Ltac run_methods :=
  cbv beta iota zeta delta
    [execute_trade buy_branch sell_branch _get_trade_amount trade_handler
     _check_position_limits fetch_data after_ticker
     send_telegram_message
     try_except bind ret raise lift call record get_position set_position
     get_current_rsi set_current_rsi logging now py_div
     position history _current_rsi fst snd].

Ltac case_step :=
  match goal with
  | |- context [match ?x with _ => _ end] =>
      lazymatch x with
      | context [match _ with _ => _ end] => fail
      | _ => destruct x eqn:?
      end
  end.

Ltac run_cases :=
  run_methods; repeat (case_step; run_methods);
  repeat match goal with u : unit |- _ => destruct u end.

Lemma execute_trade_returns ex tg cfg signal s :
  fst (execute_trade ex tg cfg signal s) = Ok tt.
Proof.
  destruct s as [pos cur h]. run_cases; reflexivity.
Qed.

(** The events a call added, read off the two histories. *)
Ltac prefix_of l h :=
  lazymatch l with
  | h => constr:(@nil Event)
  | ?e :: ?l' => let p := prefix_of l' h in constr:(e :: p)
  end.

Ltac give_events :=
  lazymatch goal with
  | |- @ex _ (fun evs => ?l = evs ++ ?h /\ @?P evs) =>
      let p := prefix_of l h in exists p
  end.

(** ** Rules for properties kept by a method *)

Section Keeps.

Variable I : Strategy -> Prop.

Lemma keeps_ret {A} (a : A) : keeps I (ret a).
Proof. intros s H. exact H. Qed.

Lemma keeps_lift {A} (r : Result A) : keeps I (lift r).
Proof. intros s H. exact H. Qed.

Lemma keeps_bind {A B} (m : M A) (k : A -> M B) :
  keeps I m -> (forall a, keeps I (k a)) -> keeps I (bind m k).
Proof.
  intros Hm Hk s H. unfold bind. specialize (Hm s H).
  destruct (m s) as [[a|e] s']; simpl in *; [apply Hk|]; assumption.
Qed.

Lemma keeps_try_except {A} (m : M A) (handler : exn -> M A) :
  keeps I m -> (forall e, keeps I (handler e)) -> keeps I (try_except m handler).
Proof.
  intros Hm Hh s H. unfold try_except. specialize (Hm s H).
  destruct (m s) as [[a|e] s']; simpl in *; [|apply Hh]; assumption.
Qed.

End Keeps.

(** ** At most one position *)

Lemma one_position_initial : one_position initial_strategy.
Proof. split; simpl; intros; lia. Qed.

Ltac one_position_case :=
  let H1 := fresh in let H2 := fresh in let P := fresh in
  intros [H1 H2]; split; cbn [net_open order_delta] in *;
  [ try specialize (H2 eq_refl); lia
  | intro P; try discriminate P;
    first [specialize (H2 P) | specialize (H2 eq_refl) | idtac]; lia ].

Lemma one_position_unordered (e : Event) :
  is_order e = false -> keeps one_position (record e).
Proof.
  intros N [pos cur h]. unfold one_position, record. simpl.
  destruct e as [| | | |a r|a r| | | |]; simpl in *; try discriminate; tauto.
Qed.

Lemma one_position_fetch_data ex : keeps one_position (fetch_data ex).
Proof.
  intros [pos cur h]. unfold one_position. run_cases; cbn; tauto.
Qed.

Lemma one_position_set_current_rsi r : keeps one_position (set_current_rsi r).
Proof. intros [pos cur h] H. exact H. Qed.

Lemma one_position_execute_trade ex tg cfg signal :
  keeps one_position (execute_trade ex tg cfg signal).
Proof.
  intros [pos cur h]. unfold one_position. run_cases; one_position_case.
Qed.

Lemma one_position_check_position_limits ex tg cfg :
  keeps one_position (_check_position_limits ex tg cfg).
Proof.
  intros [pos cur h]. unfold one_position. run_cases; one_position_case.
Qed.

Lemma one_position_run_cycle ex tg cfg : keeps one_position (run_cycle ex tg cfg).
Proof.
  unfold run_cycle.
  apply keeps_try_except; [|intro e; apply one_position_unordered; reflexivity].
  apply keeps_bind; [apply one_position_fetch_data|].
  intros [df|]; [|apply keeps_ret].
  destruct (len df =? 0)%Z; [apply keeps_ret|].
  destruct (generate_signal cfg df) as [signal df'].
  do 5 (apply keeps_bind;
        [ solve [auto using keeps_lift, one_position_set_current_rsi,
                            one_position_execute_trade]
        | intro ]).
  apply one_position_check_position_limits.
Qed.

Lemma reachable_one_position ex tg cfg s :
  reachable ex tg cfg s -> one_position s.
Proof.
  induction 1 as [|s signal _ IH|s _ IH|s _ IH].
  - apply one_position_initial.
  - apply one_position_execute_trade, IH.
  - apply one_position_check_position_limits, IH.
  - apply one_position_run_cycle, IH.
Qed.

(** C4.  In every reachable state at most one position is open at the
    venue (the strategy object itself holds one optional record); and a BUY
    signal met while a position is held returns normally, adds no order to
    the history and leaves the record as it was. *)
Theorem at_most_one_position (ex : Exchange) (tg : Telegram)
    (cfg : RSIConfig) :
  (forall s, reachable ex tg cfg s -> (net_open (history s) <= 1)%Z) /\
  (forall s p, position s = Some p ->
     fst (execute_trade ex tg cfg BUY s) = Ok tt /\
     exists evs,
       history (snd (execute_trade ex tg cfg BUY s)) = evs ++ history s /\
       forallb (fun e => negb (is_order e)) evs = true /\
       position (snd (execute_trade ex tg cfg BUY s)) = Some p).
Proof.
  split.
  - intros s R. apply (reachable_one_position ex tg cfg s R).
  - intros [pos cur h] p. simpl. intros ->.
    run_cases; (split; [reflexivity|]); give_events; repeat split.
Qed.

Lemma at_most_one_position_witness :
  let ex := constant_exchange 2 100 1 0 (Ok tt) (Ok tt) in
  let s := snd (execute_trade ex silent default_config BUY
                  (snd (execute_trade ex silent default_config BUY initial_strategy))) in
  reachable ex silent default_config s /\ (net_open (history s) <= 1)%Z /\
  position s = Some {| entry_price := 2; amount := 100 * (1 # 10) / 2;
                       opened_at := 0 |}.
Proof.
  intros ex s.
  assert (R : reachable ex silent default_config s).
  { unfold s. do 2 apply reach_execute_trade. apply reach_init. }
  split; [exact R|]. split.
  - apply (proj1 (at_most_one_position ex silent default_config) s R).
  - reflexivity.
Defined.

(** A filled sell whose notice cannot be formatted ([_current_rsi] was
    never assigned, as when [execute_trade] is driven without [run]) leaves
    the record in place: this is why [one_position] bounds the positions at
    the venue from above only. *)
Example filled_sell_without_current_rsi :
  let ex := constant_exchange 2 100 1 0 (Ok tt) (Ok tt) in
  let p := {| entry_price := 2; amount := 5; opened_at := 0 |} in
  execute_trade ex silent default_config SELL
    {| position := Some p; _current_rsi := None; history := [] |}
  = (Ok tt,
     {| position := Some p;
        _current_rsi := None;
        history := [EvLog (LogTradeExecutionError AttributeError);
                    EvSellOrder 5 (Ok tt);
                    EvFetchTicker (Ok 2)] |}).
Proof. reflexivity. Qed.

(** ** A rejected order *)

Lemma send_telegram_message_returns tg m s :
  fst (send_telegram_message tg m s) = Ok tt.
Proof. destruct s as [pos cur h]. run_cases; reflexivity. Qed.

(** C7.  [execute_trade] always returns normally; and if the order it
    placed was rejected (the exchange raised), the position is what it was
    before the call: none after a rejected buy, the same record after a
    rejected sell. *)
Theorem order_rejection_atomic (ex : Exchange) (tg : Telegram)
    (cfg : RSIConfig) (signal : Signal) (s : Strategy) :
  fst (execute_trade ex tg cfg signal s) = Ok tt /\
  exists evs,
    history (snd (execute_trade ex tg cfg signal s)) = evs ++ history s /\
    (forall a e, In (EvBuyOrder a (Raise e)) evs ->
       position s = None /\
       position (snd (execute_trade ex tg cfg signal s)) = None) /\
    (forall a e, In (EvSellOrder a (Raise e)) evs ->
       position s <> None /\
       position (snd (execute_trade ex tg cfg signal s)) = position s).
Proof.
  destruct s as [pos cur h].
  run_cases; (split; [reflexivity|]); give_events;
    (split; [reflexivity|]);
    split; intros amt err K; simpl in K; intuition (try discriminate).
Qed.

Example rejected_buy_stays_flat :
  let ex := constant_exchange 2 100 1 0 (Raise InsufficientFunds) (Ok tt) in
  execute_trade ex silent default_config BUY initial_strategy
  = (Ok tt,
     {| position := None;
        _current_rsi := None;
        history := [EvTelegram MsgInsufficientFunds;
                    EvLog (LogInsufficientFunds InsufficientFunds);
                    EvBuyOrder (100 * (1 # 10) / 2) (Raise InsufficientFunds);
                    EvMarket (Ok 1);
                    EvFetchBalance (Ok 100);
                    EvFetchTicker (Ok 2)] |}).
Proof. reflexivity. Qed.

Example rejected_sell_keeps_position :
  let ex := constant_exchange 2 100 1 0 (Ok tt) (Raise NetworkError) in
  let p := {| entry_price := 2; amount := 5; opened_at := 0 |} in
  execute_trade ex silent default_config SELL (holding p)
  = (Ok tt,
     {| position := Some p;
        _current_rsi := Some 50;
        history := [EvLog (LogNetworkError NetworkError);
                    EvSellOrder 5 (Raise NetworkError);
                    EvFetchTicker (Ok 2)] |}).
Proof. reflexivity. Qed.

Example rejected_buy_with_failing_telegram :
  let ex := constant_exchange 2 100 1 0 (Raise InsufficientFunds) (Ok tt) in
  execute_trade ex unreachable_telegram default_config BUY initial_strategy
  = (Ok tt,
     {| position := None;
        _current_rsi := None;
        history := [EvLog (LogTelegramError OtherException);
                    EvPost MsgInsufficientFunds (Raise OtherException);
                    EvTelegram MsgInsufficientFunds;
                    EvLog (LogInsufficientFunds InsufficientFunds);
                    EvBuyOrder (100 * (1 # 10) / 2) (Raise InsufficientFunds);
                    EvMarket (Ok 1);
                    EvFetchBalance (Ok 100);
                    EvFetchTicker (Ok 2)] |}).
Proof. reflexivity. Qed.

(** ** The guard on buy orders *)

Lemma positive_amount (a : Q) :
  Qeq_bool a 0 || Qleb a 0 = false <-> 0 < a.
Proof.
  rewrite orb_false_iff. split.
  - intros [_ L]. apply Qleb_gt. exact L.
  - intros P. split.
    + destruct (Qeq_bool a 0) eqn:E; [|reflexivity].
      apply Qeq_bool_iff in E. lra.
    + apply Qleb_gt. exact P.
Qed.

Ltac no_order :=
  let K := fresh in
  intros ? ? K; simpl in K; intuition discriminate.

(** C10.  [execute_trade] places a buy order only in its BUY branch
    (signal BUY, no position held, a ticker price at hand), and there only
    with the amount that [_get_trade_amount] returned, which is then not
    [None], strictly positive and at least the minimum the exchange gave
    for the market; when the sizing gave [None], zero, a negative amount or
    an amount below that minimum, no buy order is placed and the strategy
    still holds no position. *)
Theorem buy_order_guard (ex : Exchange) (tg : Telegram) (cfg : RSIConfig) :
  (forall signal s, exists evs,
     history (snd (execute_trade ex tg cfg signal s)) = evs ++ history s /\
     (forall a r, In (EvBuyOrder a r) evs ->
        signal = BUY /\ position s = None /\
        exists price, fetch_ticker ex (history s) = Ok price)) /\
  (forall s price,
     position s = None -> fetch_ticker ex (history s) = Ok price ->
     let sized := fst (_get_trade_amount ex cfg price (after_ticker ex s)) in
     let asked := market ex (history (snd (_get_trade_amount ex cfg price
                                             (after_ticker ex s)))) in
     exists evs,
       history (snd (execute_trade ex tg cfg BUY s)) = evs ++ history s /\
       (forall a r, In (EvBuyOrder a r) evs ->
          sized = Ok (Some a) /\ 0 < a /\
          exists minimum, asked = Ok minimum /\ minimum <= a) /\
       ((sized = Ok None \/
         exists a, sized = Ok (Some a) /\
                   (a <= 0 \/ exists minimum, asked = Ok minimum /\ a < minimum)) ->
        (forall a r, ~ In (EvBuyOrder a r) evs) /\
        position (snd (execute_trade ex tg cfg BUY s)) = None)).
Proof.
  split.
  - intros signal [pos cur h].
    run_cases; give_events; (split; [reflexivity|]);
      intros amt res K; simpl in K;
      try (exfalso; intuition discriminate);
      repeat split; eauto.
  - intros [pos cur h] price. simpl. intros -> T.
    run_methods. rewrite T. run_cases; give_events; (split; [reflexivity|]).
    all: split; [try no_order|].
    all: try (intros _; split; [no_order | reflexivity]).
    all: match goal with
         | Hp : _ || _ = false, Hm : Qltb _ _ = false |- _ =>
             apply positive_amount in Hp; apply Qltb_ge in Hm
         end.
    all: try (intros amt res K; simpl in K;
              repeat (destruct K as [K|K]; try discriminate K; try contradiction);
              injection K as <- <-;
              split; [reflexivity|]; split; [assumption|];
              eexists; split; [reflexivity | assumption]).
    all: intros [D | (amt & E & [N | (m & E2 & L)])];
           try discriminate D; injection E as <-;
           try (injection E2 as <-); exfalso; lra.
Qed.

Lemma buy_order_guard_witness :
  let ex := constant_exchange 2 100 1 0 (Ok tt) (Ok tt) in
  position initial_strategy = None /\
  fetch_ticker ex (history initial_strategy) = Ok 2 /\
  exists evs,
    history (snd (execute_trade ex silent default_config BUY initial_strategy))
    = evs ++ history initial_strategy /\
    (forall a r, In (EvBuyOrder a r) evs ->
       fst (_get_trade_amount ex default_config 2
              (after_ticker ex initial_strategy)) = Ok (Some a) /\
       0 < a /\
       exists minimum,
         market ex (history (snd (_get_trade_amount ex default_config 2
                                    (after_ticker ex initial_strategy))))
         = Ok minimum /\ minimum <= a) /\
    ((fst (_get_trade_amount ex default_config 2
             (after_ticker ex initial_strategy)) = Ok None \/
      exists a,
        fst (_get_trade_amount ex default_config 2
               (after_ticker ex initial_strategy)) = Ok (Some a) /\
        (a <= 0 \/
         exists minimum,
           market ex (history (snd (_get_trade_amount ex default_config 2
                                      (after_ticker ex initial_strategy))))
           = Ok minimum /\ a < minimum)) ->
     (forall a r, ~ In (EvBuyOrder a r) evs) /\
     position (snd (execute_trade ex silent default_config BUY initial_strategy))
     = None).
Proof.
  intros ex. split; [reflexivity|]. split; [reflexivity|].
  apply (proj2 (buy_order_guard ex silent default_config) initial_strategy 2);
    reflexivity.
Defined.

Example buy_below_minimum_is_skipped :
  let ex := constant_exchange 2 100 6 0 (Ok tt) (Ok tt) in
  execute_trade ex silent default_config BUY initial_strategy
  = (Ok tt,
     {| position := None;
        _current_rsi := None;
        history := [EvLog (LogBelowMinimum (100 * (1 # 10) / 2));
                    EvMarket (Ok 6);
                    EvFetchBalance (Ok 100);
                    EvFetchTicker (Ok 2)] |}).
Proof. reflexivity. Qed.

(** ** Exits *)

Ltac to_props :=
  repeat match goal with
         | H : Qltb _ _ = true |- _ => apply Qltb_lt in H
         | H : Qltb _ _ = false |- _ => apply Qltb_ge in H
         | H : Qleb _ _ = true |- _ => apply Qleb_le in H
         | H : Qleb _ _ = false |- _ => apply Qleb_gt in H
         | H : Qeq_bool _ 0 = true |- _ => apply Qeq_bool_iff in H
         | H : Qeq_bool _ 0 = false |- _ => apply Qeq_bool_neq in H
         end.

(** The clauses of [exit_taken] on the sell order, once the answer of the
    exchange is known. *)
Ltac sell_case :=
  cbv zeta;
  repeat match goal with
         | H : create_market_sell_order _ _ _ = _ |- _ => rewrite H
         end;
  split; [reflexivity|];
  split;
  [ let A := fresh "A" in let E := fresh "E" in let R := fresh "R" in
    intros A E R;
    first [ discriminate A
          | reflexivity
          | exfalso; apply R; reflexivity
          | exfalso; apply E; assumption ]
  | let A := fresh "A" in
    intros ? A; first [discriminate A | reflexivity] ].

(** [exit_taken] on one path of [_check_position_limits]. *)
Ltac exit_case :=
  split; [reflexivity|];
  split;
  [ let T := fresh "T" in
    intros ? T;
    first [discriminate T | injection T as <-; sell_case]
  | let T := fresh "T" in
    intros ? T; first [discriminate T | split; reflexivity] ].

(** The notice of another exit, or none, is not the notice asked for. *)
Ltac other_notice :=
  match goal with
  | N : exit_notices _ = _ |- _ => exfalso; simpl in N; discriminate N
  end.




(** The three tests all hold (the time limit is passed and, with a take
    profit set below the stop loss, the price 96 is under the stop 98 and
    over the target 95): one notice, the time-based one, and one sell,
    which closes the position. *)
Example all_exits_due_only_time_exit :
  let cfg := {| rsi_period := 14; oversold := 30; overbought := 70;
                stop_loss := 2 # 100; take_profit := - (5 # 100);
                risk_percentage := 1 # 10; ema_window := 14 |} in
  let ex := constant_exchange 96 100 1 20000 (Ok tt) (Ok tt) in
  let p := {| entry_price := 100; amount := 5; opened_at := 0 |} in
  (14400 < elapsed_since 20000 (opened_at p) /\
   96 <= stop_price cfg (entry_price p) /\
   target_price cfg (entry_price p) <= 96) /\
  let s' := snd (_check_position_limits ex silent cfg (holding p)) in
  exit_notices (history s')
  = [EvTelegram (MsgTimeExit 96 (hold_hours (elapsed_since 20000 0)))] /\
  filter is_order (history s') = [EvSellOrder 5 (Ok tt)] /\
  position s' = None.
Proof.
  split.
  - repeat split; vm_compute; first [reflexivity | discriminate].
  - repeat split; vm_compute; reflexivity.
Qed.

(** An exit whose sell order the exchange rejects: the notice of the exit
    is sent all the same, and the position stays. *)
Example exit_notice_after_rejected_sell :
  let ex := constant_exchange 97 100 1 60 (Ok tt) (Raise OtherException) in
  let p := {| entry_price := 100; amount := 5; opened_at := 0 |} in
  let s' := snd (_check_position_limits ex silent default_config (holding p)) in
  exit_notices (history s') = [EvTelegram (MsgStopLoss 97)] /\
  filter is_order (history s') = [EvSellOrder 5 (Raise OtherException)] /\
  position s' = Some p.
Proof. repeat split; vm_compute; reflexivity. Qed.

(** C6 fails for "every position and every price": entry 100, stop loss
    0.02, price 50, far under the stop 98, but the position is 20000
    seconds old.  The time limit is tested first, its exit is taken and
    the check returns: the stop-loss exit is not. *)
Lemma stop_loss_preempted_by_time_limit :
  let ex := constant_exchange 50 100 1 20000 (Ok tt) (Ok tt) in
  let p := {| entry_price := 100; amount := 5; opened_at := 0 |} in
  let s' := snd (_check_position_limits ex silent default_config (holding p)) in
  50 <= entry_price p * (1 - stop_loss default_config) /\
  50 <= stop_price default_config (entry_price p) /\
  exit_notices (history s')
  = [EvTelegram (MsgTimeExit 50 (hold_hours (elapsed_since 20000 0)))] /\
  ~ In (EvTelegram (MsgStopLoss 50)) (history s').
Proof.
  intros ex p s'.
  split; [vm_compute; discriminate|].
  split; [vm_compute; discriminate|].
  split; [vm_compute; reflexivity|].
  vm_compute. intros K.
  repeat (destruct K as [K|K]; [discriminate K|]). exact K.
Qed.

(** The bounds are the float64 products, not the real ones: with entry
    0.7 and stop loss 0.02 the real stop is 0.686, the float64 product
    [0.7 * (1 - 0.02)] is just under it, and the price 0.686 gets no
    exit. *)
Example stop_bound_rounded_down :
  let cfg := {| rsi_period := 14; oversold := 30; overbought := 70;
                stop_loss := round64 (2 # 100);
                take_profit := round64 (5 # 100);
                risk_percentage := 1 # 10; ema_window := 14 |} in
  let price := round64 (686 # 1000) in
  let ex := constant_exchange price 100 1 60 (Ok tt) (Ok tt) in
  let p := {| entry_price := round64 (7 # 10); amount := 5;
              opened_at := 0 |} in
  let s' := snd (_check_position_limits ex silent cfg (holding p)) in
  686 # 1000 == (7 # 10) * (1 - (2 # 100)) /\
  stop_price cfg (entry_price p) < price /\
  exit_notices (history s') = [] /\
  position s' = Some p.
Proof. repeat split; vm_compute; reflexivity. Qed.

(** C6, as the code has it.  In a check on a held position that got the
    ticker price and found the time limit not passed, with the bounds as
    float64 computes them ([stop_price], [target_price]): the stop-loss
    exit is taken exactly when [price <= stop], the bound included; the
    take-profit exit exactly when [price >= target], the bound included,
    and the stop-loss test, made first, fails (which it does whenever
    [stop < target]); no exit is taken, no order placed and the position
    stays when neither holds.  An exit taken is one in the sense of
    [exit_taken]: the sell is run and the notice sent. *)
Theorem stop_loss_take_profit_boundaries (ex : Exchange) (tg : Telegram)
    (cfg : RSIConfig) (s : Strategy) (p : Position) (price : Q) :
  position s = Some p ->
  fetch_ticker ex (history s) = Ok price ->
  let s' := snd (_check_position_limits ex tg cfg s) in
  let h2 := checked_history ex s price in
  let elapsed :=
    elapsed_since (time_time ex (EvFetchTicker (Ok price) :: history s))
                  (opened_at p) in
  let stop := stop_price cfg (entry_price p) in
  let target := target_price cfg (entry_price p) in
  elapsed <= 14400 ->
  exists evs,
    history s' = evs ++ history s /\
    (exit_taken ex s s' p h2 evs (MsgStopLoss price) <-> price <= stop) /\
    (exit_taken ex s s' p h2 evs (MsgTakeProfit price)
     <-> ~ price <= stop /\ target <= price) /\
    (stop < target ->
     (exit_taken ex s s' p h2 evs (MsgTakeProfit price) <-> target <= price)) /\
    (~ price <= stop -> ~ target <= price ->
     exit_notices evs = [] /\ filter is_order evs = [] /\
     position s' = Some p).
Proof.
  destruct s as [pos cur h]. simpl. intros -> T.
  unfold checked_history, exit_taken. run_methods. rewrite T.
  run_cases; intros NE; to_props; try (exfalso; lra);
    give_events; (split; [reflexivity|]);
    (split;
     [ split; [ intros (N & _); first [assumption | other_notice]
              | intros X; first [exfalso; lra | exit_case] ] |]);
    (split;
     [ split; [ intros (N & _); first [split; lra | other_notice]
              | intros (X & Y); first [exfalso; lra | exit_case] ] |]);
    (split;
     [ intros LT;
       split; [ intros (N & _); first [assumption | other_notice]
              | intros X; first [exfalso; lra | exit_case] ] |]);
    intros X Y; first [exfalso; lra | repeat split].
Qed.

Lemma stop_loss_take_profit_boundaries_witness :
  let ex := constant_exchange (979 # 10) 100 1 60 (Ok tt) (Ok tt) in
  let p := {| entry_price := 100; amount := 5; opened_at := 0 |} in
  let s := holding p in
  let s' := snd (_check_position_limits ex silent default_config s) in
  position s = Some p /\
  fetch_ticker ex (history s) = Ok (979 # 10) /\
  elapsed_since 60 0 <= 14400 /\
  exists evs,
    history s' = evs ++ history s /\
    (exit_taken ex s s' p (checked_history ex s (979 # 10)) evs
       (MsgStopLoss (979 # 10))
     <-> 979 # 10 <= stop_price default_config 100).
Proof.
  intros ex p s s'. split; [reflexivity|]. split; [reflexivity|].
  assert (E : elapsed_since 60 0 <= 14400) by (vm_compute; discriminate).
  split; [exact E|].
  destruct (stop_loss_take_profit_boundaries ex silent default_config s p
              (979 # 10) eq_refl eq_refl E) as (evs & H & SL & _).
  exists evs. split; [exact H | exact SL].
Defined.

(** The bounds of the default configuration on the entry price 100 are
    98 and 105, and rounding the decimals 0.02 and 0.05 to float64 first
    does not change them. *)
Example default_bounds :
  stop_price default_config 100 == 98 /\
  target_price default_config 100 == 105 /\
  round64 (1 - round64 (2 # 100)) == round64 (1 - (2 # 100)) /\
  round64 (1 + round64 (5 # 100)) == round64 (1 + (5 # 100)).
Proof. repeat split; vm_compute; reflexivity. Qed.

(** The boundary cases the specification lists: entry 100, stop loss 0.02,
    take profit 0.05, a position opened a minute ago. *)
Example stop_loss_at_97_9 :
  let ex := constant_exchange (979 # 10) 100 1 60 (Ok tt) (Ok tt) in
  let p := {| entry_price := 100; amount := 5; opened_at := 0 |} in
  let s' := snd (_check_position_limits ex silent default_config (holding p)) in
  exit_notices (history s') = [EvTelegram (MsgStopLoss (979 # 10))] /\
  filter is_order (history s') = [EvSellOrder 5 (Ok tt)] /\
  position s' = None.
Proof. repeat split; vm_compute; reflexivity. Qed.

Example no_exit_at_98_1 :
  let ex := constant_exchange (981 # 10) 100 1 60 (Ok tt) (Ok tt) in
  let p := {| entry_price := 100; amount := 5; opened_at := 0 |} in
  let s' := snd (_check_position_limits ex silent default_config (holding p)) in
  exit_notices (history s') = [] /\
  filter is_order (history s') = [] /\
  position s' = Some p.
Proof. repeat split; vm_compute; reflexivity. Qed.

Example stop_loss_at_the_bound :
  let ex := constant_exchange 98 100 1 60 (Ok tt) (Ok tt) in
  let p := {| entry_price := 100; amount := 5; opened_at := 0 |} in
  let s' := snd (_check_position_limits ex silent default_config (holding p)) in
  exit_notices (history s') = [EvTelegram (MsgStopLoss 98)] /\
  position s' = None.
Proof. repeat split; vm_compute; reflexivity. Qed.

Example take_profit_at_105_1 :
  let ex := constant_exchange (1051 # 10) 100 1 60 (Ok tt) (Ok tt) in
  let p := {| entry_price := 100; amount := 5; opened_at := 0 |} in
  let s' := snd (_check_position_limits ex silent default_config (holding p)) in
  exit_notices (history s') = [EvTelegram (MsgTakeProfit (1051 # 10))] /\
  filter is_order (history s') = [EvSellOrder 5 (Ok tt)] /\
  position s' = None.
Proof. repeat split; vm_compute; reflexivity. Qed.

Example take_profit_at_the_bound :
  let ex := constant_exchange 105 100 1 60 (Ok tt) (Ok tt) in
  let p := {| entry_price := 100; amount := 5; opened_at := 0 |} in
  let s' := snd (_check_position_limits ex silent default_config (holding p)) in
  exit_notices (history s') = [EvTelegram (MsgTakeProfit 105)] /\
  position s' = None.
Proof. repeat split; vm_compute; reflexivity. Qed.

Example no_exit_at_104_9 :
  let ex := constant_exchange (1049 # 10) 100 1 60 (Ok tt) (Ok tt) in
  let p := {| entry_price := 100; amount := 5; opened_at := 0 |} in
  let s' := snd (_check_position_limits ex silent default_config (holding p)) in
  exit_notices (history s') = [] /\ position s' = Some p.
Proof. repeat split; vm_compute; reflexivity. Qed.

Example time_exit_after_14401 :
  let ex := constant_exchange 100 100 1 14401 (Ok tt) (Ok tt) in
  let p := {| entry_price := 100; amount := 5; opened_at := 0 |} in
  let s' := snd (_check_position_limits ex silent default_config (holding p)) in
  exit_notices (history s')
  = [EvTelegram (MsgTimeExit 100 (hold_hours (elapsed_since 14401 0)))] /\
  position s' = None.
Proof. repeat split; vm_compute; reflexivity. Qed.

Example no_time_exit_after_14400 :
  let ex := constant_exchange 100 100 1 14400 (Ok tt) (Ok tt) in
  let p := {| entry_price := 100; amount := 5; opened_at := 0 |} in
  let s' := snd (_check_position_limits ex silent default_config (holding p)) in
  exit_notices (history s') = [] /\ position s' = Some p.
Proof. repeat split; vm_compute; reflexivity. Qed.


(** ** Position sizing *)

(** C3, as stated, fails: at the price -1, with a free balance of 100,
    [_get_trade_amount] returns the negative amount -10, not [None]. *)
Lemma trade_amount_negative_price :
  let ex := constant_exchange (-1) 100 1 0 (Ok tt) (Ok tt) in
  -1 <= 0 /\
  fst (_get_trade_amount ex default_config (-1) initial_strategy)
  = Ok (Some (100 * (1 # 10) / -1)) /\
  fst (_get_trade_amount ex default_config (-1) initial_strategy) <> Ok None /\
  100 * (1 # 10) / -1 == -10.
Proof.
  intros ex. split; [discriminate|]. split; [reflexivity|].
  split; [discriminate | reflexivity].
Qed.

(** C3, as the code has it.  [_get_trade_amount] never raises and leaves
    the position alone.  When the balance is at hand and the price is not
    zero it returns the quotient [balance * risk_percentage / price]; in
    float64 ([trade_amount_binary64]) the amount is that quotient up to a
    relative error of 2^-51, and its product with the price is the
    float64 risk amount up to a relative error of 2^-51, not exactly.
    It returns [None] when the price is zero (the division raises) or the
    balance lookup raises.  The sign of the price is not looked at. *)
Theorem trade_amount_contract (ex : Exchange) (cfg : RSIConfig)
    (price : Q) (s : Strategy) :
  (exists sized, fst (_get_trade_amount ex cfg price s) = Ok sized) /\
  position (snd (_get_trade_amount ex cfg price s)) = position s /\
  (forall balance,
     fetch_balance ex (history s) = Ok balance -> ~ price == 0 ->
     let risk := risk_percentage cfg in
     let risk_amount := risk_amount_binary64 balance risk in
     let amount := trade_amount_binary64 balance risk price in
     fst (_get_trade_amount ex cfg price s)
     = Ok (Some (balance * risk / price)) /\
     Qabs (amount - balance * risk / price)
     <= (1 # 2 ^ 51) * Qabs (balance * risk / price) /\
     Qabs (round64 (amount * price) - risk_amount)
     <= (1 # 2 ^ 51) * Qabs risk_amount) /\
  (price == 0 \/ (exists e, fetch_balance ex (history s) = Raise e) ->
   fst (_get_trade_amount ex cfg price s) = Ok None).
Proof.
  destruct s as [pos cur h]. simpl. run_methods.
  destruct (fetch_balance ex h) as [balance|e] eqn:B; run_methods.
  - destruct (Qeq_bool price 0) eqn:Z; run_methods.
    + apply Qeq_bool_iff in Z.
      split; [eexists; reflexivity|]. split; [reflexivity|]. split.
      * intros b _ NZ. contradiction.
      * intros _. reflexivity.
    + apply Qeq_bool_neq in Z.
      split; [eexists; reflexivity|]. split; [reflexivity|]. split.
      * intros b [= <-] NZ. split; [reflexivity|]. split.
        -- apply trade_amount_binary64_close. exact NZ.
        -- apply trade_amount_binary64_round_trip. exact NZ.
      * intros [Z0 | [e E]]; [contradiction | discriminate].
  - split; [eexists; reflexivity|]. split; [reflexivity|]. split.
    + intros b E. discriminate.
    + intros _. reflexivity.
Qed.

(** The round trip is not exact in float64: with a free balance of 10, a
    risk fraction of 0.1 and the price 49, the amount times the price is
    one unit in the last place under the risk amount 1. *)
Example trade_amount_round_trip_inexact :
  let risk := round64 (1 # 10) in
  let amount := trade_amount_binary64 10 risk 49 in
  risk_amount_binary64 10 risk == 1 /\
  round64 (amount * 49) == 1 - (1 # 2 ^ 53).
Proof. split; vm_compute; reflexivity. Qed.

(* ================================================================== *)
(** * Further properties of the code *)

(** ** A turn of [run] *)

(** X2.  No exception leaves a turn of [run]; and a turn whose data fetch
    raises, or returns no bar, adds the fetch (and the log record of the
    failure) to the history and does nothing else: no ticker is asked for,
    no order placed, the position is not checked. *)
Theorem run_cycle_without_window (ex : Exchange) (tg : Telegram)
    (cfg : RSIConfig) (s : Strategy) :
  fst (run_cycle ex tg cfg s) = Ok tt /\
  (forall e, fetch_ohlcv ex (history s) = Raise e ->
     run_cycle ex tg cfg s
     = (Ok tt,
        {| position := position s;
           _current_rsi := _current_rsi s;
           history := EvLog (LogDataFetchError e)
                      :: EvFetchOhlcv (Raise e) :: history s |})) /\
  (fetch_ohlcv ex (history s) = Ok [] ->
     run_cycle ex tg cfg s
     = (Ok tt,
        {| position := position s;
           _current_rsi := _current_rsi s;
           history := EvFetchOhlcv (Ok []) :: history s |})).
Proof.
  split.
  - unfold run_cycle, try_except.
    match goal with
    | |- fst (match ?m s with _ => _ end) = _ =>
        destruct (m s) as [[[]|e] s']
    end; reflexivity.
  - destruct s as [pos cur h]. simpl.
    split; [intros e F | intros F];
      unfold run_cycle, fetch_data, try_except, bind, call, ret, logging,
        record;
      simpl; rewrite F; reflexivity.
Qed.

(** X3.  A turn of [run] on a window that is not empty but shorter than
    [rsi_period] ends in the handler of the loop: [generate_signal] returns
    HOLD without assigning the column ['rsi'], reading it raises [KeyError],
    and neither [execute_trade] nor [_check_position_limits] is reached, so
    a held position is not checked against its limits in that turn. *)
Theorem run_cycle_short_window (ex : Exchange) (tg : Telegram)
    (cfg : RSIConfig) (s : Strategy) (bars : list Bar) :
  fetch_ohlcv ex (history s) = Ok bars ->
  bars <> [] ->
  (Z.of_nat (length bars) < rsi_period cfg)%Z ->
  run_cycle ex tg cfg s
  = (Ok tt,
     {| position := position s;
        _current_rsi := _current_rsi s;
        history := EvLog (LogMainLoopError KeyError)
                   :: EvFetchOhlcv (Ok bars) :: history s |}).
Proof.
  intros F N L. destruct s as [pos cur h]. simpl in *.
  unfold run_cycle, fetch_data, try_except, bind, call, ret, logging, record. simpl.
  rewrite F. simpl.
  assert (E : (len {| rows := bars; rsi := None |} =? 0)%Z = false).
  { unfold len. simpl. apply Z.eqb_neq. destruct bars; [congruence|]. simpl. lia. }
  rewrite E.
  unfold generate_signal.
  assert (S : (len {| rows := bars; rsi := None |} <? rsi_period cfg)%Z = true).
  { unfold len. simpl. apply Z.ltb_lt. exact L. }
  rewrite S. simpl. reflexivity.
Qed.

Lemma run_cycle_short_window_witness :
  let bars := rows (frame_of_closes [10; 11; 21 # 2]) in
  let ex := exchange_with_bars bars in
  fetch_ohlcv ex (history initial_strategy) = Ok bars /\
  bars <> [] /\
  (Z.of_nat (length bars) < rsi_period default_config)%Z /\
  run_cycle ex silent default_config initial_strategy
  = (Ok tt,
     {| position := None;
        _current_rsi := None;
        history := [EvLog (LogMainLoopError KeyError);
                    EvFetchOhlcv (Ok bars)] |}).
Proof.
  intros bars ex.
  assert (N : bars <> []) by discriminate.
  assert (L : (Z.of_nat (length bars) < rsi_period default_config)%Z)
    by (simpl; lia).
  split; [reflexivity|]. split; [exact N|]. split; [exact L|].
  apply (run_cycle_short_window ex silent default_config initial_strategy
           bars eq_refl N L).
Defined.




(** ** What a held record looks like *)

Ltac nonzero_facts :=
  repeat match goal with
         | H : Qeq_bool _ 0 = false |- _ => apply Qeq_bool_neq in H
         | H : _ || _ = false |- _ => apply positive_amount in H
         end.

Lemma sound_record_execute_trade ex tg cfg signal :
  keeps sound_record (execute_trade ex tg cfg signal).
Proof.
  intros [pos cur h]. unfold sound_record. simpl.
  run_cases; intros H p0 E; try discriminate E;
    try (apply H; exact E);
    injection E as <-; simpl; nonzero_facts; split; assumption.
Qed.

Lemma sound_record_check_position_limits ex tg cfg :
  keeps sound_record (_check_position_limits ex tg cfg).
Proof.
  intros [pos cur h]. unfold sound_record. simpl.
  run_cases; intros H p0 E; try discriminate E; apply H; exact E.
Qed.

Lemma sound_record_untouched {A} (m : M A) :
  (forall s, position (snd (m s)) = position s) -> keeps sound_record m.
Proof. intros H s K p E. rewrite H in E. apply K. exact E. Qed.

Lemma sound_record_run_cycle ex tg cfg : keeps sound_record (run_cycle ex tg cfg).
Proof.
  unfold run_cycle.
  apply keeps_try_except;
    [|intro e; apply sound_record_untouched; intros [? ? ?]; reflexivity].
  apply keeps_bind.
  { apply sound_record_untouched. intros [pos cur h]. run_cases; reflexivity. }
  intros [df|]; [|apply keeps_ret].
  destruct (len df =? 0)%Z; [apply keeps_ret|].
  destruct (generate_signal cfg df) as [signal df'].
  do 5 (apply keeps_bind;
        [ solve [ apply keeps_lift
                | apply sound_record_untouched; intros [? ? ?]; reflexivity
                | apply sound_record_execute_trade ]
        | intro ]).
  apply sound_record_check_position_limits.
Qed.

(** X5.  Whatever methods were called, a record the strategy holds has a
    strictly positive amount and an entry price that is not zero. *)
Theorem held_record_is_sound (ex : Exchange) (tg : Telegram) (cfg : RSIConfig)
    (s : Strategy) (p : Position) :
  reachable ex tg cfg s -> position s = Some p ->
  0 < amount p /\ ~ entry_price p == 0.
Proof.
  intros R. revert p. change (sound_record s).
  induction R as [|s signal _ IH|s _ IH|s _ IH].
  - intros p E. discriminate E.
  - apply sound_record_execute_trade, IH.
  - apply sound_record_check_position_limits, IH.
  - apply sound_record_run_cycle, IH.
Qed.

(** ** Record and venue under [run] *)


Ltac in_step_case :=
  let H := fresh in let R := fresh in
  intros [H R]; split; [|try assumption; try discriminate];
  cbn [net_open order_delta position history] in *;
  nonzero_facts;
  repeat match goal with
         | K : Qeq_bool _ 0 = true |- _ => apply Qeq_bool_iff in K
         end;
  try (exfalso; apply R; reflexivity);
  try (exfalso; tauto);
  try congruence;
  first [ lia | split; [lia | try assumption; tauto] | tauto ].

Lemma in_step_execute_trade ex tg cfg signal :
  keeps in_step_rsi (execute_trade ex tg cfg signal).
Proof.
  intros [pos cur h]. unfold in_step_rsi, in_step. simpl.
  run_cases; in_step_case.
Qed.

Lemma in_step_check_position_limits ex tg cfg :
  keeps in_step_rsi (_check_position_limits ex tg cfg).
Proof.
  intros [pos cur h]. unfold in_step_rsi, in_step. simpl.
  run_cases; in_step_case.
Qed.


Lemma in_step_logging l : keeps in_step (logging l).
Proof. intros [pos cur h] H. exact H. Qed.

Lemma in_step_fetch_data ex : keeps in_step (fetch_data ex).
Proof.
  intros [pos cur h]. unfold in_step. simpl. run_cases; cbn; tauto.
Qed.

Lemma in_step_run_cycle ex tg cfg : keeps in_step (run_cycle ex tg cfg).
Proof.
  intros s H. unfold run_cycle, try_except, bind.
  pose proof (in_step_fetch_data ex s H) as H1.
  destruct (fetch_data ex s) as [[[df|]|e] s1]; simpl in H1 |- *;
    [ | exact H1 | exact H1 ].
  destruct (len df =? 0)%Z; [exact H1|].
  destruct (generate_signal cfg df) as [[sig|e] df']; simpl; [|exact H1].
  destruct (get_rsi df') as [column|e]; simpl; [|exact H1].
  destruct (iloc_last column) as [latest|e]; simpl; [|exact H1].
  match goal with
  | |- context [execute_trade ex tg cfg sig ?st] => set (s2 := st)
  end.
  assert (H2 : in_step_rsi s2).
  { split; [exact H1 | discriminate]. }
  clearbody s2.
  pose proof (in_step_execute_trade ex tg cfg sig s2 H2) as H3.
  destruct (execute_trade ex tg cfg sig s2) as [[[]|e] s3]; simpl in H3 |- *;
    [|apply H3].
  pose proof (in_step_check_position_limits ex tg cfg s3 H3) as H4.
  destruct (_check_position_limits ex tg cfg s3) as [[[]|e] s4];
    simpl in H4 |- *; apply H4.
Qed.

(** X4.  Driven by [run] alone, the record and the venue stay in step:
    either no position is held and filled buys and sells balance, or one
    is held and there is exactly one more filled buy than filled sells. *)
Theorem run_keeps_record_and_venue_in_step (ex : Exchange) (tg : Telegram)
    (cfg : RSIConfig) (s : Strategy) :
  reachable_by_run ex tg cfg s ->
  (position s = None /\ net_open (history s) = 0%Z) \/
  (exists p, position s = Some p /\ net_open (history s) = 1%Z).
Proof.
  intros R.
  assert (H : in_step s).
  { induction R as [|s _ IH]; [reflexivity | apply in_step_run_cycle, IH]. }
  unfold in_step in H. destruct (position s) as [p|].
  - right. exists p. split; [reflexivity | apply H].
  - left. split; [reflexivity | exact H].
Qed.

(** ** The terminal front end *)


Lemma unset_rsi_execute_trade ex tg cfg signal :
  keeps (fun s => _current_rsi s = None) (execute_trade ex tg cfg signal).
Proof. intros [pos cur h]. simpl. run_cases; intros E; try exact E; discriminate. Qed.

Lemma unset_rsi_fetch_data ex :
  keeps (fun s => _current_rsi s = None) (fetch_data ex).
Proof. intros [pos cur h]. simpl. run_cases; trivial. Qed.

Lemma ui_stuck_execute_trade ex tg cfg signal p :
  keeps (ui_stuck p) (execute_trade ex tg cfg signal).
Proof.
  intros [pos cur h]. unfold ui_stuck. simpl. intros [-> ->].
  run_cases; split; reflexivity.
Qed.

Lemma ui_stuck_fetch_data ex p : keeps (ui_stuck p) (fetch_data ex).
Proof.
  intros [pos cur h]. unfold ui_stuck. simpl. run_cases; trivial.
Qed.

Lemma keeps_ui_trading_step (I : Strategy -> Prop) ex tg cfg :
  keeps I (fetch_data ex) ->
  (forall signal, keeps I (execute_trade ex tg cfg signal)) ->
  keeps I (ui_trading_step ex tg cfg).
Proof.
  intros Hf He. unfold ui_trading_step.
  apply keeps_bind; [exact Hf|].
  intros [df|]; [|apply keeps_ret].
  destruct (len df =? 0)%Z; [apply keeps_ret|].
  destruct (generate_signal cfg df) as [signal df'].
  do 3 (apply keeps_bind; [apply keeps_lift | intro]).
  apply He.
Qed.

(** X6.  Driven by the terminal front end alone, [_current_rsi] is never
    assigned, so the notice of a filled sell cannot be formatted and the
    record is never cleared: once a position is held, it is still held,
    unchanged, after every further turn. *)
Theorem ui_never_clears_position (ex : Exchange) (tg : Telegram)
    (cfg : RSIConfig) (s : Strategy) (p : Position) :
  reachable_by_ui ex tg cfg s ->
  position s = Some p ->
  position (snd (ui_trading_step ex tg cfg s)) = Some p.
Proof.
  intros R E.
  assert (U : _current_rsi s = None).
  { clear E. induction R as [|s _ IH]; [reflexivity|].
    apply (keeps_ui_trading_step (fun s => _current_rsi s = None)).
    - apply unset_rsi_fetch_data.
    - intro. apply unset_rsi_execute_trade.
    - exact IH. }
  apply (keeps_ui_trading_step (ui_stuck p) ex tg cfg).
  - apply ui_stuck_fetch_data.
  - intro. apply ui_stuck_execute_trade.
  - split; assumption.
Qed.

(** X7.  In the loop of the terminal front end nothing catches the
    [KeyError] of a window that is not empty but shorter than
    [rsi_period]: the turn raises, after the fetch and before any trade. *)
Theorem ui_step_short_window_raises (ex : Exchange) (tg : Telegram)
    (cfg : RSIConfig) (s : Strategy) (bars : list Bar) :
  fetch_ohlcv ex (history s) = Ok bars ->
  bars <> [] ->
  (Z.of_nat (length bars) < rsi_period cfg)%Z ->
  ui_trading_step ex tg cfg s
  = (Raise KeyError,
     {| position := position s;
        _current_rsi := _current_rsi s;
        history := EvFetchOhlcv (Ok bars) :: history s |}).
Proof.
  intros F N L. destruct s as [pos cur h]. simpl in *.
  unfold ui_trading_step, fetch_data, try_except, bind, call, ret. simpl.
  rewrite F. simpl.
  assert (E : (len {| rows := bars; rsi := None |} =? 0)%Z = false).
  { unfold len. simpl. apply Z.eqb_neq. destruct bars; [congruence|]. simpl. lia. }
  rewrite E. unfold generate_signal.
  assert (S : (len {| rows := bars; rsi := None |} <? rsi_period cfg)%Z = true).
  { unfold len. simpl. apply Z.ltb_lt. exact L. }
  rewrite S. reflexivity.
Qed.


Ltac pick_events :=
  match goal with
  | K : In _ _ |- _ =>
      simpl in K; try contradiction;
      repeat (destruct K as [K|K]; try discriminate K; try contradiction)
  end.

Ltac find_event := repeat (first [left; reflexivity | right]).

(** X8.  One call of [execute_trade] places at most one order, and none
    unless the ticker was fetched; a sell order only under SELL, for the
    whole amount of the held record; none at all under HOLD; and the
    record changes only when an order was filled. *)
Theorem execute_trade_order_discipline (ex : Exchange) (tg : Telegram)
    (cfg : RSIConfig) (signal : Signal) (s : Strategy) :
  exists evs,
    history (snd (execute_trade ex tg cfg signal s)) = evs ++ history s /\
    (length (filter is_order evs) <= 1)%nat /\
    (forall a r, In (EvSellOrder a r) evs ->
       signal = SELL /\ exists p, position s = Some p /\ a = amount p) /\
    (forall a r, In (EvBuyOrder a r) evs \/ In (EvSellOrder a r) evs ->
       exists price, fetch_ticker ex (history s) = Ok price) /\
    (position (snd (execute_trade ex tg cfg signal s)) <> position s ->
       exists a, In (EvBuyOrder a (Ok tt)) evs \/ In (EvSellOrder a (Ok tt)) evs) /\
    (signal = HOLD -> filter is_order evs = []).
Proof.
  destruct s as [pos cur h].
  run_cases; give_events; (split; [reflexivity|]);
    (split; [simpl; lia|]);
    (split;
     [ intros amt res K; pick_events; injection K as <- <-;
       (split; [reflexivity | eexists; split; reflexivity])
     | split;
       [ intros amt res [K|K]; pick_events; eexists; reflexivity
       | split;
         [ intros N;
           first [ exfalso; apply N; reflexivity
                 | eexists;
                   first [ left; simpl; solve [find_event]
                         | right; simpl; solve [find_event] ] ]
         | intros E; first [discriminate E | reflexivity] ] ] ]).
Qed.

(** X9.  [_check_position_limits] never raises and never buys.  Without a
    position it does nothing at all; with one, it leaves the record as it
    was or clears it after a filled sell of the held amount. *)
Theorem check_position_limits_only_closes (ex : Exchange) (tg : Telegram)
    (cfg : RSIConfig) (s : Strategy) :
  fst (_check_position_limits ex tg cfg s) = Ok tt /\
  (position s = None -> snd (_check_position_limits ex tg cfg s) = s) /\
  exists evs,
    history (snd (_check_position_limits ex tg cfg s)) = evs ++ history s /\
    (forall a r, ~ In (EvBuyOrder a r) evs) /\
    (forall a r, In (EvSellOrder a r) evs ->
       exists p, position s = Some p /\ a = amount p) /\
    (position (snd (_check_position_limits ex tg cfg s)) = position s \/
     (position (snd (_check_position_limits ex tg cfg s)) = None /\
      exists a, In (EvSellOrder a (Ok tt)) evs)).
Proof.
  destruct s as [pos cur h].
  run_cases; (split; [reflexivity|]);
    (split; [intros E; first [discriminate E | reflexivity]|]);
    give_events; (split; [reflexivity|]);
    (split; [intros amt res K; pick_events|]);
    (split;
     [ intros amt res K; pick_events; injection K as <- <-;
       eexists; split; reflexivity
     | first [ left; reflexivity
             | right; split; [reflexivity|];
               eexists; simpl; solve [find_event] ] ]).
Qed.


(** X1.  [send_telegram_message] never raises and touches neither the
    position nor [_current_rsi]; without both credentials it makes no
    request; with them it makes exactly one, and logs it when it fails. *)
Theorem send_telegram_message_contained (tg : Telegram) (m : Message)
    (s : Strategy) :
  fst (send_telegram_message tg m s) = Ok tt /\
  position (snd (send_telegram_message tg m s)) = position s /\
  _current_rsi (snd (send_telegram_message tg m s)) = _current_rsi s /\
  (credentials tg = false ->
   history (snd (send_telegram_message tg m s)) = EvTelegram m :: history s) /\
  (credentials tg = true ->
   exists r,
     r = requests_post tg (EvTelegram m :: history s) m /\
     history (snd (send_telegram_message tg m s))
     = match r with
       | Ok _ => [EvPost m r; EvTelegram m]
       | Raise e => [EvLog (LogTelegramError e); EvPost m r; EvTelegram m]
       end ++ history s).
Proof.
  destruct s as [pos cur h].
  run_cases;
    repeat match goal with
           | H : negb _ = true |- _ => apply negb_true_iff in H
           | H : negb _ = false |- _ => apply negb_false_iff in H
           end;
    (split; [reflexivity|]); (split; [reflexivity|]);
    (split; [reflexivity|]);
    (split;
     [ intro K; first [reflexivity | congruence]
     | intro K; first [congruence | eexists; split; reflexivity] ]).
Qed.


(** ** Gains and losses by index *)

Lemma diff_from_nth (s : list Q) :
  forall prev i, (i < length s)%nat ->
    nth i (Pandas.diff_from prev s) None
    = Some (nth i s 0 - nth i (prev :: s) 0).
Proof.
  induction s as [|x r IH]; intros prev i Hi; simpl in Hi; [lia|].
  destruct i as [|i]; [reflexivity|].
  simpl. rewrite IH by lia. reflexivity.
Qed.

Lemma diff_nth (closes : list Q) i :
  (S i < length closes)%nat ->
  nth (S i) (Pandas.diff closes) None
  = Some (nth (S i) closes 0 - nth i closes 0).
Proof.
  destruct closes as [|x r]; simpl; intros Hi; [lia|].
  rewrite diff_from_nth by lia. reflexivity.
Qed.

Lemma gain_nth (closes : list Q) i :
  nth i (gain_of closes) 0
  = match nth i (Pandas.diff closes) None with
    | Some v => if Qltb 0 v then v else 0
    | None => 0
    end.
Proof.
  unfold gain_of, Pandas.where_.
  exact (map_nth (fun d : option Q =>
                    match d with
                    | Some v => if Qltb 0 v then v else 0
                    | None => 0
                    end) (Pandas.diff closes) None i).
Qed.

Lemma loss_nth (closes : list Q) i :
  nth i (loss_of closes) 0
  = - match nth i (Pandas.diff closes) None with
      | Some v => if Qltb v 0 then v else 0
      | None => 0
      end.
Proof.
  unfold loss_of, Pandas.where_. rewrite map_map.
  exact (map_nth (fun d : option Q =>
                    - match d with
                      | Some v => if Qltb v 0 then v else 0
                      | None => 0
                      end) (Pandas.diff closes) None i).
Qed.

(** X11.  From the second bar on, gain and loss are the positive and the
    negative part of the close delta: both are non-negative, at most one
    is not zero, and their difference is the delta; on the first bar both
    are zero. *)
Theorem gain_and_loss_split_the_delta (closes : list Q) (i : nat) :
  (S i < length closes)%nat ->
  let delta := nth (S i) closes 0 - nth i closes 0 in
  let g := nth (S i) (gain_of closes) 0 in
  let l := nth (S i) (loss_of closes) 0 in
  0 <= g /\ 0 <= l /\ g - l == delta /\ g * l == 0 /\
  nth 0 (gain_of closes) 0 == 0 /\ nth 0 (loss_of closes) 0 == 0.
Proof.
  intros Hi delta g l. unfold g, l.
  rewrite gain_nth, loss_nth, diff_nth by exact Hi. fold delta.
  assert (Z0 : nth 0 (gain_of closes) 0 == 0 /\ nth 0 (loss_of closes) 0 == 0).
  { destruct closes as [|x r]; simpl in Hi; [lia|]. split; reflexivity. }
  destruct Z0 as [Zg Zl].
  destruct (Qltb 0 delta) eqn:P, (Qltb delta 0) eqn:N;
    try apply Qltb_lt in P; try apply Qltb_lt in N;
    try apply Qltb_ge in P; try apply Qltb_ge in N;
    repeat split; try assumption; try lra; try ring.
Qed.

(** ** The oscillator in closed form *)

Lemma rsi_entry_closed_form (g l : Q) :
  0 <= g -> 0 <= l -> rsi_entry g l == 100 * g / (g + l + epsilon).
Proof.
  intros Hg Hl. unfold rsi_entry.
  assert (E : 0 < epsilon) by reflexivity.
  field. repeat split; lra.
Qed.

Lemma Forall_nth_Q (P : Q -> Prop) (l : list Q) i :
  Forall P l -> (i < length l)%nat -> P (nth i l 0).
Proof.
  intros F. revert i. induction F as [|x r Hx _ IH]; intros i Hi; simpl in Hi.
  - lia.
  - destruct i as [|i]; [exact Hx | apply IH; lia].
Qed.

Lemma avg_gain_nonneg alpha closes :
  0 < alpha -> alpha <= 1 -> Forall (fun v => 0 <= v) (avg_gain_of alpha closes).
Proof.
  intros A0 A1. apply ewm_mean_nonneg; [lra | lra | apply gain_nonneg].
Qed.

Lemma avg_loss_nonneg alpha closes :
  0 < alpha -> alpha <= 1 -> Forall (fun v => 0 <= v) (avg_loss_of alpha closes).
Proof.
  intros A0 A1. apply ewm_mean_nonneg; [lra | lra | apply loss_nonneg].
Qed.

Lemma avg_gain_length alpha closes :
  length (avg_gain_of alpha closes) = length closes.
Proof. unfold avg_gain_of. rewrite ewm_mean_length. apply gain_length. Qed.

Lemma avg_loss_length alpha closes :
  length (avg_loss_of alpha closes) = length closes.
Proof. unfold avg_loss_of. rewrite ewm_mean_length. apply loss_length. Qed.

Lemma oscillator_nth alpha closes i :
  (i < length closes)%nat ->
  nth i (oscillator alpha closes) 0
  = rsi_entry (nth i (avg_gain_of alpha closes) 0)
              (nth i (avg_loss_of alpha closes) 0).
Proof.
  intros Hi. unfold oscillator. apply zip_with_nth.
  - rewrite avg_gain_length. exact Hi.
  - rewrite avg_loss_length. exact Hi.
Qed.

(** X12.  Every entry of the oscillator is
    [100 * avg_gain / (avg_gain + avg_loss + 1e-10)]. *)
Theorem oscillator_closed_form (cfg : RSIConfig) (df : DataFrame) (i : nat) :
  (1 <= ema_window cfg)%Z ->
  (i < length (rows df))%nat ->
  let alpha := 1 / inject_Z (ema_window cfg) in
  let g := nth i (avg_gain_of alpha (close_column df)) 0 in
  let l := nth i (avg_loss_of alpha (close_column df)) 0 in
  exists s,
    _calculate_rsi_wilders cfg df = Ok (set_rsi df s) /\
    nth i s 0 == 100 * g / (g + l + epsilon).
Proof.
  intros W Hi alpha g l.
  pose proof (smoothing_alpha_ok cfg W) as A.
  destruct (smoothing_alpha_range cfg _ A) as [A0 A1]. fold alpha in A0, A1.
  exists (oscillator alpha (close_column df)). split.
  - unfold _calculate_rsi_wilders. rewrite A. reflexivity.
  - rewrite oscillator_nth by (rewrite close_column_length; exact Hi).
    apply rsi_entry_closed_form.
    + apply Forall_nth_Q; [apply avg_gain_nonneg; assumption|].
      rewrite avg_gain_length, close_column_length. exact Hi.
    + apply Forall_nth_Q; [apply avg_loss_nonneg; assumption|].
      rewrite avg_loss_length, close_column_length. exact Hi.
Qed.

(** ** A window that never rises *)

Lemma gain_of_never_rises closes :
  never_rises closes -> Forall (fun v => v == 0) (gain_of closes).
Proof.
  unfold never_rises, gain_of, Pandas.where_. intros F.
  apply Forall_map. eapply Forall_impl; [|exact F].
  intros [v|] H; [|reflexivity].
  destruct (Qltb 0 v) eqn:P; [apply Qltb_lt in P; lra | reflexivity].
Qed.


Lemma ewm_from_zero alpha (s : list Q) :
  Forall (fun v => v == 0) s ->
  forall y, y == 0 -> Forall (fun v => v == 0) (Pandas.ewm_from alpha y s).
Proof.
  intros F. induction F as [|x r Hx _ IH]; intros y Hy; simpl.
  - constructor.
  - assert (Z : (1 - alpha) * y + alpha * x == 0) by (rewrite Hx, Hy; ring).
    constructor; [exact Z | apply IH; exact Z].
Qed.

Lemma ewm_mean_zero alpha (s : list Q) :
  Forall (fun v => v == 0) s -> Forall (fun v => v == 0) (Pandas.ewm_mean alpha s).
Proof.
  intros F. destruct F as [|x r Hx F]; simpl; constructor.
  - exact Hx.
  - apply ewm_from_zero; assumption.
Qed.

Lemma rsi_entry_comp (g g' l l' : Q) :
  g == g' -> l == l' -> rsi_entry g l == rsi_entry g' l'.
Proof. intros Hg Hl. unfold rsi_entry. rewrite Hg, Hl. reflexivity. Qed.

Lemma iloc_last_nth (s : list Q) :
  s <> [] -> iloc_last s = Ok (nth (length s - 1) s 0).
Proof.
  destruct s as [|x r]; [congruence|]. intros _. simpl. f_equal.
  rewrite Nat.sub_0_r. revert x. induction r as [|y r IH]; intros x.
  - reflexivity.
  - simpl. rewrite IH. destruct r; reflexivity.
Qed.

Lemma oscillator_never_rises alpha closes :
  0 < alpha -> alpha <= 1 -> never_rises closes ->
  Forall (fun v => v == 0) (oscillator alpha closes).
Proof.
  intros A0 A1 N. unfold oscillator.
  apply zip_with_Forall
    with (P := fun v => v == 0) (R := fun v => 0 <= v).
  - intros x y Hx Hy. rewrite (rsi_entry_comp x 0 y y Hx (Qeq_refl y)).
    apply rsi_entry_zero_gain. exact Hy.
  - apply ewm_mean_zero, gain_of_never_rises, N.
  - apply avg_loss_nonneg; assumption.
Qed.

(** X13.  On a window of at least [rsi_period] bars whose close never
    rises (a falling market, or a flat one) the signal is BUY: every
    oscillator entry is 0. *)
Theorem flat_or_falling_window_gives_buy (cfg : RSIConfig) (df : DataFrame) :
  config_valid cfg ->
  (rsi_period cfg <= len df)%Z ->
  never_rises (close_column df) ->
  fst (generate_signal cfg df) = Ok BUY.
Proof.
  intros (P & O0 & O1 & O2 & W) L N.
  pose proof (smoothing_alpha_ok cfg W) as A.
  destruct (smoothing_alpha_range cfg _ A) as [A0 A1].
  set (alpha := 1 / inject_Z (ema_window cfg)) in *.
  assert (NE : oscillator alpha (close_column df) <> []).
  { intro E. apply (f_equal (@length Q)) in E.
    rewrite oscillator_length, close_column_length in E.
    unfold len in L. simpl in E. lia. }
  pose proof (iloc_last_nth _ NE) as I.
  rewrite (generate_signal_long cfg df _ _ L A I). simpl. f_equal.
  apply classify_buy.
  assert (Z : nth (length (oscillator alpha (close_column df)) - 1)
                  (oscillator alpha (close_column df)) 0 == 0).
  { apply (Forall_nth_Q (fun v => v == 0)).
    - apply oscillator_never_rises; assumption.
    - destruct (oscillator alpha (close_column df)); [congruence|]. simpl. lia. }
  rewrite Z. exact O0.
Qed.

(** ** A window that never falls *)






(** ** Moving every close by the same amount *)


Lemma Qltb_comp (x x' y y' : Q) : x == x' -> y == y' -> Qltb x y = Qltb x' y'.
Proof. intros Hx Hy. unfold Qltb. rewrite Hx, Hy. reflexivity. Qed.

Lemma diff_from_shift (c : Q) (s : list Q) :
  forall p p', p' == p + c ->
    Forall2 same_delta (Pandas.diff_from p' (map (fun x => x + c) s))
                       (Pandas.diff_from p s).
Proof.
  induction s as [|x r IH]; intros p p' Hp; simpl; constructor.
  - simpl. rewrite Hp. ring.
  - apply IH. reflexivity.
Qed.

Lemma diff_shift (c : Q) (s : list Q) :
  Forall2 same_delta (Pandas.diff (map (fun x => x + c) s)) (Pandas.diff s).
Proof.
  destruct s as [|x r]; simpl; constructor.
  - exact I.
  - apply diff_from_shift. reflexivity.
Qed.

Lemma where_comp (cond : Q -> bool) (a b : list (option Q)) :
  (forall x y, x == y -> cond x = cond y) ->
  Forall2 same_delta a b ->
  Forall2 Qeq (Pandas.where_ cond 0 a) (Pandas.where_ cond 0 b).
Proof.
  intros C F. induction F as [|x y a b H _ IH]; simpl; constructor; [|exact IH].
  destruct x as [x|], y as [y|]; simpl in H; try contradiction; [|reflexivity].
  rewrite (C x y H). destruct (cond y); [exact H | reflexivity].
Qed.

Lemma ewm_from_comp alpha (a b : list Q) :
  Forall2 Qeq a b ->
  forall y y', y == y' ->
    Forall2 Qeq (Pandas.ewm_from alpha y a) (Pandas.ewm_from alpha y' b).
Proof.
  intros F. induction F as [|x x' a b H _ IH]; intros y y' Hy; simpl;
    constructor.
  - rewrite H, Hy. reflexivity.
  - apply IH. rewrite H, Hy. reflexivity.
Qed.

Lemma ewm_mean_comp alpha (a b : list Q) :
  Forall2 Qeq a b ->
  Forall2 Qeq (Pandas.ewm_mean alpha a) (Pandas.ewm_mean alpha b).
Proof.
  intros F. destruct F as [|x x' a b H F]; simpl; constructor.
  - exact H.
  - apply ewm_from_comp; assumption.
Qed.

Lemma zip_with_comp (a a' : list Q) :
  Forall2 Qeq a a' -> forall b b', Forall2 Qeq b b' ->
  Forall2 Qeq (Pandas.zip_with rsi_entry a b) (Pandas.zip_with rsi_entry a' b').
Proof.
  intros Fa. induction Fa as [|x x' a a' H _ IH]; intros b b' Fb; simpl.
  - constructor.
  - destruct Fb as [|y y' b b' Hy Fb]; constructor.
    + apply rsi_entry_comp; assumption.
    + apply IH. exact Fb.
Qed.

Lemma opp_comp (a b : list Q) :
  Forall2 Qeq a b -> Forall2 Qeq (map Qopp a) (map Qopp b).
Proof.
  intros F. induction F as [|x y a b H _ IH]; simpl; constructor; [|exact IH].
  rewrite H. reflexivity.
Qed.

Lemma oscillator_shift alpha (c : Q) (closes : list Q) :
  Forall2 Qeq (oscillator alpha (map (fun x => x + c) closes))
              (oscillator alpha closes).
Proof.
  unfold oscillator, avg_gain_of, avg_loss_of, gain_of, loss_of.
  apply zip_with_comp; apply ewm_mean_comp.
  - apply where_comp; [|apply diff_shift].
    intros x y H. apply Qltb_comp; [reflexivity | exact H].
  - apply opp_comp. apply where_comp; [|apply diff_shift].
    intros x y H. apply Qltb_comp; [exact H | reflexivity].
Qed.

Lemma last_comp (a b : list Q) :
  Forall2 Qeq a b -> forall x y, x == y -> last a x == last b y.
Proof.
  intros F. induction F as [|u v a b H F IH]; intros x y Hxy; [exact Hxy|].
  destruct F as [|u' v' a b H' F].
  - exact H.
  - apply (IH x y Hxy).
Qed.

Lemma classify_comp cfg (x y : Q) : x == y -> classify cfg x = classify cfg y.
Proof.
  intros H. unfold classify.
  rewrite (Qltb_comp x y (oversold cfg) (oversold cfg) H (Qeq_refl _)).
  rewrite (Qltb_comp (overbought cfg) (overbought cfg) x y (Qeq_refl _) H).
  reflexivity.
Qed.

Lemma close_column_shift c df :
  close_column (shift_closes c df) = map (fun x => x + c) (close_column df).
Proof. unfold close_column, shift_closes. simpl. rewrite !map_map. reflexivity. Qed.

(** X15.  The signal depends on the changes of the close, not on its
    level: moving every close by the same amount gives the same result. *)
Theorem signal_ignores_the_price_level (cfg : RSIConfig) (df : DataFrame)
    (c : Q) :
  fst (generate_signal cfg (shift_closes c df)) = fst (generate_signal cfg df).
Proof.
  unfold generate_signal, _calculate_rsi_wilders.
  assert (Len : len (shift_closes c df) = len df).
  { unfold len, shift_closes. simpl. rewrite length_map. reflexivity. }
  rewrite Len. destruct (len df <? rsi_period cfg)%Z; [reflexivity|].
  destruct (smoothing_alpha cfg) as [alpha|e]; [|reflexivity].
  simpl. rewrite close_column_shift.
  pose proof (oscillator_shift alpha c (close_column df)) as F.
  destruct F as [|x y a b H F]; [reflexivity|].
  simpl. f_equal. apply classify_comp. apply last_comp; assumption.
Qed.

(** ** Calling [generate_signal] twice *)

(** X16.  Calling [generate_signal] again on the frame a call left behind
    gives the same result and leaves that frame as it is. *)
Theorem generate_signal_twice (cfg : RSIConfig) (df : DataFrame) :
  generate_signal cfg (snd (generate_signal cfg df)) = generate_signal cfg df.
Proof.
  unfold generate_signal, _calculate_rsi_wilders.
  destruct (len df <? rsi_period cfg)%Z eqn:S; simpl.
  - rewrite S. reflexivity.
  - destruct (smoothing_alpha cfg) as [alpha|e] eqn:A; simpl.
    + destruct (iloc_last (oscillator alpha (close_column df)))
        as [latest|e] eqn:I; simpl;
        change (len (set_rsi df (oscillator alpha (close_column df))))
          with (len df);
        rewrite S; simpl;
        change (close_column (set_rsi df (oscillator alpha (close_column df))))
          with (close_column df);
        rewrite I; reflexivity.
    + rewrite S. reflexivity.
Qed.

(** ** A smoothing window that is not positive *)

(** X17.  With a smoothing window of 0, or a negative one,
    [generate_signal] raises ([ZeroDivisionError], [ValueError]) on every
    window of at least [rsi_period] bars, before touching the frame; on a
    shorter window it still returns HOLD. *)
Theorem generate_signal_bad_window (cfg : RSIConfig) (df : DataFrame) :
  ((len df < rsi_period cfg)%Z -> generate_signal cfg df = (Ok HOLD, df)) /\
  ((rsi_period cfg <= len df)%Z -> ema_window cfg = 0%Z ->
   generate_signal cfg df = (Raise ZeroDivisionError, df)) /\
  ((rsi_period cfg <= len df)%Z -> (ema_window cfg < 0)%Z ->
   generate_signal cfg df = (Raise ValueError, df)).
Proof.
  unfold generate_signal, _calculate_rsi_wilders, smoothing_alpha, py_div,
    Pandas.check_alpha.
  repeat split.
  - intros S. apply Z.ltb_lt in S. rewrite S. reflexivity.
  - intros L W. apply Z.ltb_ge in L. rewrite L, W. reflexivity.
  - intros L W. apply Z.ltb_ge in L. rewrite L.
    assert (N : inject_Z (ema_window cfg) < 0).
    { change 0 with (inject_Z 0). rewrite <- Zlt_Qlt. exact W. }
    destruct (Qeq_bool (inject_Z (ema_window cfg)) 0) eqn:Z0.
    { apply Qeq_bool_iff in Z0. lra. }
    assert (NA : 1 / inject_Z (ema_window cfg) <= 0).
    { unfold Qdiv. rewrite Qmult_1_l.
      assert (0 < / - inject_Z (ema_window cfg)).
      { apply Qinv_lt_0_compat. lra. }
      assert (/ - inject_Z (ema_window cfg) == - / inject_Z (ema_window cfg)).
      { field. lra. }
      lra. }
    apply Qltb_ge in NA. rewrite NA. reflexivity.
Qed.


Lemma py_mod_range (a b : Q) :
  0 < b ->
  exists r, py_mod a b = Ok r /\ 0 <= r /\ r < b /\
            exists k : Z, a == inject_Z k * b + r.
Proof.
  intros B. unfold py_mod.
  destruct (Qeq_bool b 0) eqn:Z0; [apply Qeq_bool_iff in Z0; lra|].
  eexists. split; [reflexivity|].
  pose proof (Qfloor_le (a / b)) as Lo.
  pose proof (Qlt_floor (a / b)) as Hi.
  rewrite inject_Z_plus in Hi. change (inject_Z 1) with 1 in Hi.
  set (f := inject_Z (Qfloor (a / b))) in *.
  assert (E : a == b * (a / b)) by (field; lra).
  assert (L1 : b * f <= b * (a / b)) by (apply Qmult_le_l; assumption).
  assert (L2 : b * (a / b) < b * (f + 1)) by (apply Qmult_lt_l; assumption).
  setoid_replace (b * (f + 1)) with (b * f + b) in L2 by ring.
  repeat split; try lra.
  exists (Qfloor (a / b)). fold f. ring.
Qed.

Lemma py_max_spec (a b : Q) : a <= py_max a b /\ b <= py_max a b /\
                             (py_max a b = a \/ py_max a b = b).
Proof.
  unfold py_max. destruct (Qltb a b) eqn:C.
  - apply Qltb_lt in C. repeat split; try lra. right. reflexivity.
  - apply Qltb_ge in C. repeat split; try lra. left. reflexivity.
Qed.

(** X18.  For a positive candle interval the pause at the end of a turn
    of [run] is at least 10 and at most the larger of the interval and 10;
    when it is more than 10, the turn and the pause together last a whole
    number of intervals. *)
Theorem sleep_time_bounds (interval elapsed : Q) :
  0 < interval ->
  exists t,
    sleep_time interval elapsed = Ok t /\
    10 <= t /\ t <= py_max interval 10 /\
    (10 < t -> exists k : Z, elapsed + t == inject_Z k * interval).
Proof.
  intros B. unfold sleep_time.
  destruct (py_mod_range elapsed interval B) as (r & -> & R0 & R1 & k & K).
  eexists. split; [reflexivity|].
  destruct (py_max_spec (interval - r) 10) as (M1 & M2 & M3).
  destruct (py_max_spec interval 10) as (N1 & N2 & _).
  split; [exact M2|]. split.
  - destruct M3 as [-> | ->]; lra.
  - intros T. destruct M3 as [E | E]; rewrite E in *; [|lra].
    exists (k + 1)%Z. rewrite inject_Z_plus. change (inject_Z 1) with 1.
    rewrite K. ring.
Qed.

(** ** The menu *)

Lemma handle_input_valid (key c : Z) :
  (0 <= c <= 2)%Z ->
  (0 <= snd (Menu._handle_input key c) <= 2)%Z /\
  exists r, fst (Menu._handle_input key c) = Ok r /\
            forall o, r = Some o ->
                      In o Menu.options /\ (key = 10 \/ key = 13)%Z /\
                      snd (Menu._handle_input key c) = c.
Proof.
  intros C. unfold Menu._handle_input.
  destruct ((key =? Menu.KEY_UP) && (0 <? c))%Z eqn:U.
  { apply andb_true_iff in U. destruct U as [_ U]. apply Z.ltb_lt in U.
    simpl. split; [lia|]. eexists. split; [reflexivity|]. discriminate. }
  destruct ((key =? Menu.KEY_DOWN)
            && (c <? Z.of_nat (length Menu.options) - 1))%Z eqn:D.
  { apply andb_true_iff in D. destruct D as [_ D]. apply Z.ltb_lt in D.
    simpl in *. split; [lia|]. eexists. split; [reflexivity|]. discriminate. }
  destruct ((key =? 10) || (key =? 13))%Z eqn:E.
  - simpl. split; [lia|].
    assert (K : (key = 10 \/ key = 13)%Z).
    { apply orb_true_iff in E. destruct E as [E|E]; apply Z.eqb_eq in E; lia. }
    assert (c = 0 \/ c = 1 \/ c = 2)%Z as [-> | [-> | ->]] by lia;
      (eexists; split; [reflexivity|]);
      intros o [= <-]; (split; [simpl; tauto | split; [exact K | reflexivity]]).
  - simpl. split; [lia|]. eexists. split; [reflexivity|]. discriminate.
Qed.

Lemma after_keys_valid (keys : list Z) :
  forall c, (0 <= c <= 2)%Z -> (0 <= Menu.after_keys keys c <= 2)%Z.
Proof.
  induction keys as [|k ks IH]; intros c H; simpl; [exact H|].
  apply IH. apply handle_input_valid. exact H.
Qed.

(** X19.  Whatever keys were pressed, the highlighted entry of the menu
    stays within the three options and [_handle_input] does not raise; it
    returns an option only on Enter, one of the three, and leaves the
    highlight where it was. *)
Theorem menu_index_stays_valid (keys : list Z) (key : Z) :
  let c := Menu.after_keys keys 0 in
  (0 <= c <= 2)%Z /\
  exists r, fst (Menu._handle_input key c) = Ok r /\
            forall o, r = Some o ->
                      In o Menu.options /\ (key = 10 \/ key = 13)%Z /\
                      snd (Menu._handle_input key c) = c.
Proof.
  intros c.
  assert (V : (0 <= c <= 2)%Z) by (apply after_keys_valid; lia).
  split; [exact V|]. apply handle_input_valid. exact V.
Qed.

(** ** The new token of a transaction *)

Lemma is_new_token_spec (token : ILove.TokenTransfer) :
  ILove.is_new_token token = true <->
  exists m, ILove.mint token = Some m /\ m <> EmptyString /\
            m <> ILove.WRAPPED_SOL /\
            truthy (ILove.fromTokenAccount token) = true.
Proof.
  unfold ILove.is_new_token. destruct (ILove.mint token) as [m|].
  - rewrite !andb_true_iff, negb_true_iff, String.eqb_neq. split.
    + intros [[T N] F]. exists m. repeat split; try assumption.
      intros ->. discriminate T.
    + intros (m' & [= <-] & E & N & F). repeat split; try assumption.
      destruct m; [congruence | reflexivity].
  - split; [discriminate|]. intros (m & E & _). discriminate E.
Qed.

Lemma first_new_mint_spec (transfers : list ILove.TokenTransfer) :
  match ILove.first_new_mint transfers with
  | Some m =>
      exists before token after,
        transfers = before ++ token :: after /\
        Forall (fun t => ILove.is_new_token t = false) before /\
        ILove.is_new_token token = true /\ ILove.mint token = Some m
  | None => Forall (fun t => ILove.is_new_token t = false) transfers
  end.
Proof.
  induction transfers as [|t r IH]; simpl; [constructor|].
  destruct (ILove.is_new_token t) eqn:N.
  - destruct (proj1 (is_new_token_spec t) N) as (m & E & _).
    rewrite E. exists [], t, r. repeat split; try assumption. constructor.
  - destruct (ILove.first_new_mint r) as [m|].
    + destruct IH as (before & token & after & -> & F & Q & E).
      exists (t :: before), token, after. repeat split; try assumption.
      constructor; assumption.
    + constructor; assumption.
Qed.

(** X20.  [extract_token_address] returns the mint of the first transfer
    whose mint is not empty, is not wrapped SOL, and has a source token
    account; it returns [None] exactly when no transfer is of that
    kind. *)
Theorem extract_token_address_finds_first_new_token
    (tokenTransfers : option (list ILove.TokenTransfer)) :
  let transfers := match tokenTransfers with Some l => l | None => [] end in
  match ILove.extract_token_address tokenTransfers with
  | Some m =>
      m <> EmptyString /\ m <> ILove.WRAPPED_SOL /\
      exists before token after,
        transfers = before ++ token :: after /\
        Forall (fun t => ILove.is_new_token t = false) before /\
        ILove.mint token = Some m /\
        truthy (ILove.fromTokenAccount token) = true
  | None =>
      forall token m,
        In token transfers -> ILove.mint token = Some m ->
        m = EmptyString \/ m = ILove.WRAPPED_SOL \/
        truthy (ILove.fromTokenAccount token) = false
  end.
Proof.
  intros transfers. unfold ILove.extract_token_address. fold transfers.
  pose proof (first_new_mint_spec transfers) as H.
  destruct (ILove.first_new_mint transfers) as [m|].
  - destruct H as (before & token & after & E & F & Q & M).
    apply is_new_token_spec in Q. destruct Q as (m' & M' & NE & NW & T).
    rewrite M in M'. injection M' as <-.
    repeat split; try assumption.
    exists before, token, after. repeat split; assumption.
  - intros token m I M. rewrite Forall_forall in H. specialize (H token I).
    destruct m as [|c r]; [left; reflexivity|].
    destruct (String.eqb (String c r) ILove.WRAPPED_SOL) eqn:W.
    + right. left. apply String.eqb_eq. exact W.
    + right. right. unfold ILove.is_new_token in H. rewrite M, W in H.
      simpl in H. exact H.
Qed.



Lemma fold_left_Qsum (l : list Q) :
  forall a, fold_left Qplus l a == a + Qsum l.
Proof.
  induction l as [|x r IH]; intros a; simpl.
  - ring.
  - rewrite IH. ring.
Qed.

Lemma py_sum_Qsum (l : list Q) : ILove.py_sum l == Qsum l.
Proof. unfold ILove.py_sum. rewrite fold_left_Qsum. ring. Qed.

Lemma Qsum_perm (l l' : list Q) : Permutation l l' -> Qsum l == Qsum l'.
Proof.
  induction 1; simpl.
  - reflexivity.
  - rewrite IHPermutation. reflexivity.
  - ring.
  - rewrite IHPermutation1. exact IHPermutation2.
Qed.

Lemma insert_desc_perm (x : Q) (l : list Q) :
  Permutation (ILove.insert_desc x l) (x :: l).
Proof.
  induction l as [|y r IH]; simpl; [reflexivity|].
  destruct (Qleb y x); [reflexivity|].
  rewrite IH. apply perm_swap.
Qed.

Lemma sorted_desc_perm (l : list Q) : Permutation (ILove.sorted_desc l) l.
Proof.
  induction l as [|x r IH]; simpl; [reflexivity|].
  rewrite insert_desc_perm. constructor. exact IH.
Qed.


Lemma insert_desc_sorted (x : Q) (l : list Q) :
  descending l -> descending (ILove.insert_desc x l).
Proof.
  unfold descending. induction 1 as [|y r S IH F]; simpl.
  - repeat constructor.
  - destruct (Qleb y x) eqn:C.
    + apply Qleb_le in C. constructor; [constructor; assumption|].
      constructor; [exact C|].
      eapply Forall_impl; [|exact F]. intros z Hz. simpl in Hz. lra.
    + apply Qleb_gt in C. constructor; [exact IH|].
      eapply Permutation_Forall.
      * symmetry. apply insert_desc_perm.
      * constructor; [lra | exact F].
Qed.

Lemma sorted_desc_sorted (l : list Q) : descending (ILove.sorted_desc l).
Proof.
  induction l as [|x r IH]; simpl; [constructor|].
  apply insert_desc_sorted. exact IH.
Qed.

Lemma Forall_firstn_Q (P : Q -> Prop) (k : nat) (l : list Q) :
  Forall P l -> Forall P (firstn k l).
Proof.
  intros F. revert k. induction F as [|x r Hx F IH]; intros [|k]; simpl;
    constructor; auto.
Qed.

Lemma descending_firstn (k : nat) (l : list Q) :
  descending l -> descending (firstn k l).
Proof.
  unfold descending. intros S. revert k.
  induction S as [|x r S IH F]; intros [|k]; simpl; try constructor.
  - apply IH.
  - apply Forall_firstn_Q. exact F.
Qed.

Lemma Qsum_nonneg (l : list Q) : Forall (fun v => 0 <= v) l -> 0 <= Qsum l.
Proof. induction 1; simpl; lra. Qed.

Lemma Qsum_firstn_le (k : nat) (l : list Q) :
  Forall (fun v => 0 <= v) l -> Qsum (firstn k l) <= Qsum l.
Proof.
  intros F. revert k. induction F as [|x r Hx F IH]; intros [|k]; simpl;
    try lra.
  - pose proof (Qsum_nonneg r F). lra.
  - specialize (IH k). lra.
Qed.

Lemma Qsum_member_le (l : list Q) :
  Forall (fun v => 0 <= v) l -> Forall (fun v => v <= Qsum l) l.
Proof.
  induction 1 as [|x r Hx F IH]; simpl; constructor.
  - pose proof (Qsum_nonneg r F). lra.
  - eapply Forall_impl; [|exact IH]. intros a Ha. simpl in Ha. lra.
Qed.

Lemma Qsum_share (T : Q) (l : list Q) :
  ~ T == 0 -> Qsum (map (share T) l) == Qsum l / T * 100.
Proof.
  intros NZ. induction l as [|x r IH]; simpl.
  - field. exact NZ.
  - rewrite IH. unfold share. field. exact NZ.
Qed.

Lemma percentage_loop_ok (T : Q) (l : list Q) :
  ~ T == 0 ->
  forall acc tot, exists tot',
    ILove.percentage_loop T l acc tot = Ok (acc ++ map (share T) l, tot') /\
    tot' == tot + Qsum (map (share T) l).
Proof.
  intros NZ. induction l as [|x r IH]; intros acc tot; simpl.
  - exists tot. rewrite app_nil_r. split; [reflexivity | ring].
  - unfold py_div. destruct (Qeq_bool T 0) eqn:Z0.
    { apply Qeq_bool_iff in Z0. contradiction. }
    destruct (IH (acc ++ [x / T * 100]) (tot + x / T * 100)) as (tot' & E & S).
    exists tot'. rewrite E, <- app_assoc. split; [reflexivity|].
    rewrite S. unfold share. ring.
Qed.

Lemma percentage_loop_zero (T : Q) (x : Q) (r acc : list Q) (tot : Q) :
  T == 0 -> ILove.percentage_loop T (x :: r) acc tot = Raise ZeroDivisionError.
Proof.
  intros Z0. simpl. unfold py_div. apply Qeq_bool_iff in Z0. rewrite Z0.
  reflexivity.
Qed.

(** X21.  [perform_rugcheck] on a result without top holders reports no
    percentage and a total of 0; on holders whose amounts sum to zero it
    raises [ZeroDivisionError]. *)
Theorem rugcheck_without_supply (rc : ILove.RugCheck) :
  (ILove.topHolders rc = [] ->
   exists rep, ILove.perform_rugcheck rc = Ok rep /\
               ILove.top_holder_percentages rep = [] /\
               ILove.total_percentage rep = 0) /\
  (ILove.topHolders rc <> [] -> ILove.py_sum (ILove.topHolders rc) == 0 ->
   ILove.perform_rugcheck rc = Raise ZeroDivisionError).
Proof.
  unfold ILove.perform_rugcheck. split.
  - intros ->. simpl. eexists. repeat split.
  - intros NE Z0.
    destruct (firstn 10 (ILove.sorted_desc (ILove.topHolders rc)))
      as [|x r] eqn:E.
    + exfalso. apply NE. apply (f_equal (@length Q)) in E.
      rewrite length_firstn, (Permutation_length (sorted_desc_perm _)) in E.
      destruct (ILove.topHolders rc); [reflexivity | simpl in E; lia].
    + rewrite percentage_loop_zero by exact Z0. reflexivity.
Qed.

(** X22.  For non-negative holder amounts with a positive sum,
    [perform_rugcheck] reports at most ten percentages, largest first,
    each between 0 and 100; their total is between 0 and 100, and is 100
    when there are at most ten holders. *)
Theorem rugcheck_shares (rc : ILove.RugCheck) :
  Forall (fun v => 0 <= v) (ILove.topHolders rc) ->
  0 < ILove.py_sum (ILove.topHolders rc) ->
  exists rep,
    ILove.perform_rugcheck rc = Ok rep /\
    length (ILove.top_holder_percentages rep)
    = Nat.min 10 (length (ILove.topHolders rc)) /\
    Forall (fun p => 0 <= p /\ p <= 100) (ILove.top_holder_percentages rep) /\
    descending (ILove.top_holder_percentages rep) /\
    ILove.total_percentage rep == Qsum (ILove.top_holder_percentages rep) /\
    0 <= ILove.total_percentage rep /\ ILove.total_percentage rep <= 100 /\
    ((length (ILove.topHolders rc) <= 10)%nat ->
     ILove.total_percentage rep == 100).
Proof.
  intros F P. unfold ILove.perform_rugcheck.
  set (holders := ILove.topHolders rc) in *.
  set (T := ILove.py_sum holders) in *.
  set (top := firstn 10 (ILove.sorted_desc holders)).
  assert (NZ : ~ T == 0) by lra.
  assert (TS : T == Qsum holders) by apply py_sum_Qsum.
  assert (Fs : Forall (fun v => 0 <= v) (ILove.sorted_desc holders)).
  { eapply Permutation_Forall; [|exact F].
    symmetry. apply sorted_desc_perm. }
  assert (Ft : Forall (fun v => 0 <= v) top) by (apply Forall_firstn_Q; exact Fs).
  assert (Ss : Qsum (ILove.sorted_desc holders) == T).
  { rewrite (Qsum_perm _ _ (sorted_desc_perm holders)). symmetry. exact TS. }
  assert (St : Qsum top <= T).
  { rewrite <- Ss. apply Qsum_firstn_le. exact Fs. }
  destruct (percentage_loop_ok T top NZ [] 0) as (tot & E & S).
  rewrite E. eexists. split; [reflexivity|].
  cbn [ILove.top_holder_percentages ILove.total_percentage app].
  rewrite Qsum_share in S by exact NZ.
  assert (Tot : tot == Qsum top / T * 100) by (rewrite S; ring).
  assert (Q0 : 0 <= Qsum top) by (apply Qsum_nonneg; exact Ft).
  assert (R0 : 0 <= Qsum top / T) by (apply Qle_shift_div_l; lra).
  assert (R1 : Qsum top / T <= 1) by (apply Qle_shift_div_r; lra).
  split; [|split; [|split; [|split; [|split; [|split]]]]].
  - rewrite length_map. unfold top.
    rewrite length_firstn, (Permutation_length (sorted_desc_perm _)).
    reflexivity.
  - apply Forall_map.
    assert (Fm : Forall (fun v => v <= T) top).
    { apply Forall_firstn_Q.
      eapply Forall_impl;
        [|apply (Qsum_member_le (ILove.sorted_desc holders) Fs)].
      intros a Ha. simpl in Ha. lra. }
    rewrite Forall_forall in Ft, Fm. apply Forall_forall. intros a Ia.
    specialize (Ft a Ia). specialize (Fm a Ia). unfold share.
    assert (0 <= a / T) by (apply Qle_shift_div_l; lra).
    assert (a / T <= 1) by (apply Qle_shift_div_r; lra).
    lra.
  - assert (D : descending top).
    { apply descending_firstn, sorted_desc_sorted. }
    unfold descending in *. clear - D P.
    induction D as [|x r D IH Fx]; simpl; constructor.
    + exact IH.
    + apply Forall_map. eapply Forall_impl; [|exact Fx].
      intros a Ha. simpl in Ha. unfold share.
      assert (a / T <= x / T).
      { apply Qle_shift_div_l; [exact P|].
        setoid_replace (a / T * T) with a by (field; lra). exact Ha. }
      lra.
  - rewrite Qsum_share by exact NZ. exact Tot.
  - rewrite Tot. lra.
  - rewrite Tot. lra.
  - intros Le. rewrite Tot. unfold top.
    rewrite firstn_all2
      by (rewrite (Permutation_length (sorted_desc_perm _)); exact Le).
    rewrite Ss. field. exact NZ.
Qed.

(** ** The properties above at concrete inputs *)

Lemma config_valid_default : config_valid default_config.
Proof. unfold config_valid. simpl. repeat split; try lia; reflexivity. Defined.

Lemma never_rises_falling_closes :
  never_rises (close_column (frame_of_closes falling_closes)).
Proof.
  unfold never_rises. simpl.
  repeat (apply Forall_cons; [first [exact I | vm_compute; discriminate]|]).
  apply Forall_nil.
Defined.


Lemma run_keeps_record_and_venue_in_step_witness :
  let ex := exchange_with_bars (rows (frame_of_closes falling_closes)) in
  let s := snd (run_cycle ex silent default_config initial_strategy) in
  reachable_by_run ex silent default_config s /\
  ((position s = None /\ net_open (history s) = 0%Z) \/
   (exists p, position s = Some p /\ net_open (history s) = 1%Z)).
Proof.
  intros ex s.
  assert (R : reachable_by_run ex silent default_config s)
    by (apply run_turn, run_init).
  split; [exact R|].
  apply (run_keeps_record_and_venue_in_step ex silent default_config s R).
Defined.

Lemma held_record_is_sound_witness :
  let ex := exchange_with_bars (rows (frame_of_closes falling_closes)) in
  let s := snd (run_cycle ex silent default_config initial_strategy) in
  let p := {| entry_price := 2; amount := 100 * (1 # 10) / 2; opened_at := 0 |} in
  reachable ex silent default_config s /\
  position s = Some p /\
  0 < amount p /\ ~ entry_price p == 0.
Proof.
  intros ex s p.
  assert (R : reachable ex silent default_config s)
    by (apply reach_run_cycle, reach_init).
  assert (E : position s = Some p) by (vm_compute; reflexivity).
  split; [exact R|]. split; [exact E|].
  apply (held_record_is_sound ex silent default_config s p R E).
Defined.

Lemma ui_never_clears_position_witness :
  let ex := exchange_with_bars (rows (frame_of_closes falling_closes)) in
  let s := snd (ui_trading_step ex silent default_config initial_strategy) in
  let p := {| entry_price := 2; amount := 100 * (1 # 10) / 2; opened_at := 0 |} in
  reachable_by_ui ex silent default_config s /\
  position s = Some p /\
  position (snd (ui_trading_step ex silent default_config s)) = Some p.
Proof.
  intros ex s p.
  assert (R : reachable_by_ui ex silent default_config s)
    by (apply ui_turn, ui_init).
  assert (E : position s = Some p) by (vm_compute; reflexivity).
  split; [exact R|]. split; [exact E|].
  apply (ui_never_clears_position ex silent default_config s p R E).
Defined.

Lemma ui_step_short_window_raises_witness :
  let bars := rows (frame_of_closes [10; 11; 21 # 2]) in
  let ex := exchange_with_bars bars in
  fetch_ohlcv ex (history initial_strategy) = Ok bars /\
  bars <> [] /\
  (Z.of_nat (length bars) < rsi_period default_config)%Z /\
  ui_trading_step ex silent default_config initial_strategy
  = (Raise KeyError,
     {| position := None;
        _current_rsi := None;
        history := [EvFetchOhlcv (Ok bars)] |}).
Proof.
  intros bars ex.
  assert (N : bars <> []) by discriminate.
  assert (L : (Z.of_nat (length bars) < rsi_period default_config)%Z)
    by (simpl; lia).
  split; [reflexivity|]. split; [exact N|]. split; [exact L|].
  apply (ui_step_short_window_raises ex silent default_config
           initial_strategy bars eq_refl N L).
Defined.

Lemma gain_and_loss_split_the_delta_witness :
  let closes := [10; 11; 21 # 2] in
  (1 < length closes)%nat /\
  nth 1 (gain_of closes) 0 - nth 1 (loss_of closes) 0 == 11 - 10.
Proof.
  intros closes.
  assert (L : (1 < length closes)%nat) by (simpl; lia).
  split; [exact L|].
  apply (gain_and_loss_split_the_delta closes 0 L).
Defined.

Lemma oscillator_closed_form_witness :
  let df := frame_of_closes [10; 11; 21 # 2] in
  let alpha := 1 / inject_Z (ema_window default_config) in
  (1 <= ema_window default_config)%Z /\
  (1 < length (rows df))%nat /\
  exists s,
    _calculate_rsi_wilders default_config df = Ok (set_rsi df s) /\
    nth 1 s 0
    == 100 * nth 1 (avg_gain_of alpha (close_column df)) 0
       / (nth 1 (avg_gain_of alpha (close_column df)) 0
          + nth 1 (avg_loss_of alpha (close_column df)) 0 + epsilon).
Proof.
  intros df alpha.
  assert (W : (1 <= ema_window default_config)%Z) by (simpl; lia).
  assert (L : (1 < length (rows df))%nat) by (simpl; lia).
  split; [exact W|]. split; [exact L|].
  apply (oscillator_closed_form default_config df 1 W L).
Defined.

Lemma flat_or_falling_window_gives_buy_witness :
  let df := frame_of_closes falling_closes in
  config_valid default_config /\
  (rsi_period default_config <= len df)%Z /\
  never_rises (close_column df) /\
  fst (generate_signal default_config df) = Ok BUY.
Proof.
  intros df.
  assert (L : (rsi_period default_config <= len df)%Z)
    by (vm_compute; discriminate).
  split; [exact config_valid_default|]. split; [exact L|].
  split; [exact never_rises_falling_closes|].
  apply (flat_or_falling_window_gives_buy default_config df
           config_valid_default L never_rises_falling_closes).
Defined.


Lemma sleep_time_bounds_witness :
  0 < 300000 /\
  exists t,
    sleep_time 300000 3 = Ok t /\
    10 <= t /\ t <= py_max 300000 10 /\
    (10 < t -> exists k : Z, 3 + t == inject_Z k * 300000).
Proof.
  assert (B : 0 < 300000) by reflexivity.
  split; [exact B|].
  apply (sleep_time_bounds 300000 3 B).
Defined.

Lemma rugcheck_shares_witness :
  let rc := {| ILove.score := 1;
               ILove.topHolders := [20; 50; 30];
               ILove.totalMarketLiquidity := 1000;
               ILove.creator := None |} in
  Forall (fun v => 0 <= v) (ILove.topHolders rc) /\
  0 < ILove.py_sum (ILove.topHolders rc) /\
  exists rep,
    ILove.perform_rugcheck rc = Ok rep /\
    length (ILove.top_holder_percentages rep)
    = Nat.min 10 (length (ILove.topHolders rc)) /\
    Forall (fun p => 0 <= p /\ p <= 100) (ILove.top_holder_percentages rep) /\
    descending (ILove.top_holder_percentages rep) /\
    ILove.total_percentage rep == Qsum (ILove.top_holder_percentages rep) /\
    0 <= ILove.total_percentage rep /\ ILove.total_percentage rep <= 100 /\
    ((length (ILove.topHolders rc) <= 10)%nat ->
     ILove.total_percentage rep == 100).
Proof.
  intros rc.
  assert (F : Forall (fun v => 0 <= v) (ILove.topHolders rc)).
  { simpl. repeat (apply Forall_cons; [vm_compute; discriminate|]).
    apply Forall_nil. }
  assert (P : 0 < ILove.py_sum (ILove.topHolders rc)) by reflexivity.
  split; [exact F|]. split; [exact P|].
  apply (rugcheck_shares rc F P).
Defined.

Example rugcheck_three_holders :
  let rc := {| ILove.score := 1;
               ILove.topHolders := [20; 50; 30];
               ILove.totalMarketLiquidity := 1000;
               ILove.creator := None |} in
  exists rep,
    ILove.perform_rugcheck rc = Ok rep /\
    Forall2 Qeq (ILove.top_holder_percentages rep) [50; 30; 20] /\
    ILove.total_percentage rep == 100 /\
    ILove.creator_shown rep = "Unknown"%string.
Proof.
  eexists. split; [reflexivity|]. split.
  - repeat constructor; reflexivity.
  - split; reflexivity.
Qed.
